(** * Survey-sheet reshaping scripts: cell interpreter, vote mapper, reshaper

    Shallow embedding of the four scripts under [scripts/]:
    - [build_data_chile_partidos_2025.py]      (module [ChilePartidos])
    - [build_data_peru_partidos_2026.py]       (module [PeruPartidos])
    - [build_data_chile_presidencial_2025.py]  (module [ChilePresidencial])
    - [build_data_peru_pres_2026.py]           (module [PeruPres])

    Python strings are sequences of Unicode code points; floats are IEEE
    binary64 values ([spec_float] with [prec = 53], [emax = 1024]); the
    spreadsheet is the list of rows that [pd.read_excel(..., dtype=str,
    header=None)] hands to the script.  Exceptions are an explicit error
    type. *)

From Stdlib Require Import List NArith ZArith Bool String Ascii Lia.
From Stdlib Require Import Floats.SpecFloat.
Import ListNotations.

Local Open Scope N_scope.

(* ===================================================================== *)
(** * Python strings *)
(* ===================================================================== *)

Definition codepoint := N.
Definition str := list codepoint.

(** Decoding of the UTF-8 bytes of a literal into code points, so that
    literals can be written as in the scripts. *)
Fixpoint utf8_decode (bs : list N) : str :=
  match bs with
  | [] => []
  | b0 :: r0 =>
    if b0 <? 128 then b0 :: utf8_decode r0
    else match r0 with
    | [] => []
    | b1 :: r1 =>
      if b0 <? 224 then
        (N.lor (N.shiftl (N.land b0 31) 6) (N.land b1 63)) :: utf8_decode r1
      else match r1 with
      | [] => []
      | b2 :: r2 =>
        if b0 <? 240 then
          (N.lor (N.shiftl (N.land b0 15) 12)
             (N.lor (N.shiftl (N.land b1 63) 6) (N.land b2 63)))
            :: utf8_decode r2
        else match r2 with
        | [] => []
        | b3 :: r3 =>
          (N.lor (N.shiftl (N.land b0 7) 18)
             (N.lor (N.shiftl (N.land b1 63) 12)
                (N.lor (N.shiftl (N.land b2 63) 6) (N.land b3 63))))
            :: utf8_decode r3
        end
      end
    end
  end.

Definition u (s : string) : str :=
  utf8_decode (map N_of_ascii (list_ascii_of_string s)).

Definition str_eqb (a b : str) : bool :=
  if list_eq_dec N.eq_dec a b then true else false.

(** [Py_UNICODE_ISSPACE]: the code points on which [str.isspace] holds.
    [str.strip()] without argument and the pattern [\s] both use it. *)
Definition isspace (c : codepoint) : bool :=
  ((9 <=? c) && (c <=? 13)) || ((28 <=? c) && (c <=? 32))
  || (c =? 133) || (c =? 160) || (c =? 5760)
  || ((8192 <=? c) && (c <=? 8202))
  || (c =? 8232) || (c =? 8233) || (c =? 8239) || (c =? 8287) || (c =? 12288).

Fixpoint lstrip (s : str) : str :=
  match s with
  | [] => []
  | c :: s' => if isspace c then lstrip s' else s
  end.

Definition rstrip (s : str) : str :=
  fold_right
    (fun c acc =>
       match acc with
       | [] => if isspace c then [] else [c]
       | _ :: _ => c :: acc
       end) [] s.

(** [s.strip()] *)
Definition strip (s : str) : str := rstrip (lstrip s).

(** [s.replace(',', '.')] *)
Definition replace_comma (s : str) : str :=
  map (fun c => if c =? 44 then 46 else c) s.

(** [s.lower()] on the Basic Latin and Latin-1 blocks, and on U+0130 whose
    lower case is the two code points U+0069 U+0307.  These are the only
    code points whose lower case holds a letter of the vote vocabulary;
    the lower case of the other scripts is left as it is, which no
    comparison against the vocabulary can observe. *)
Definition lower_cp (c : codepoint) : list codepoint :=
  if (65 <=? c) && (c <=? 90) then [c + 32]
  else if (192 <=? c) && (c <=? 222) && negb (c =? 215) then [c + 32]
  else if c =? 304 then [105; 775]
  else [c].

Definition lower (s : str) : str := flat_map lower_cp s.

(** [s.startswith(p)], returning what follows the prefix. *)
Fixpoint strip_prefix (p s : str) : option str :=
  match p with
  | [] => Some s
  | a :: p' =>
    match s with
    | [] => None
    | b :: s' => if a =? b then strip_prefix p' s' else None
    end
  end.

(** [p in s] *)
Fixpoint contains (p s : str) : bool :=
  match strip_prefix p s with
  | Some _ => true
  | None =>
    match s with
    | [] => false
    | _ :: s' => contains p s'
    end
  end.

(** [s.partition(sep)] restricted to the case where [sep] occurs: the text
    before the leftmost occurrence and the text after it. *)
Fixpoint partition (sep s : str) : option (str * str) :=
  match strip_prefix sep s with
  | Some rest => Some ([], rest)
  | None =>
    match s with
    | [] => None
    | c :: s' =>
      match partition sep s' with
      | Some (a, b) => Some (c :: a, b)
      | None => None
      end
    end
  end.

(** [s.split(sep, maxsplit)] for a non-empty separator. *)
Fixpoint split (sep s : str) (maxsplit : nat) : list str :=
  match maxsplit with
  | O => [s]
  | S n =>
    match partition sep s with
    | None => [s]
    | Some (a, b) => a :: split sep b n
    end
  end.

(** [sep.join(parts)] *)
Fixpoint join (sep : str) (parts : list str) : str :=
  match parts with
  | [] => []
  | [p] => p
  | p :: ps => p ++ sep ++ join sep ps
  end.

(* ===================================================================== *)
(** * Python floats: [float(str)] *)
(* ===================================================================== *)

Definition float := spec_float.
Definition prec : Z := 53.
Definition emax : Z := 1024.

(** First code point of each run of ten decimal digits (Unicode category
    Nd, Unicode 14). *)
Definition decimal_zeros : list codepoint :=
  [48; 1632; 1776; 1984; 2406; 2534; 2662; 2790; 2918; 3046; 3174; 3302;
   3430; 3558; 3664; 3792; 3872; 4160; 4240; 6112; 6160; 6470; 6608; 6784;
   6800; 6992; 7088; 7232; 7248; 42528; 43216; 43264; 43472; 43504; 43600;
   44016; 65296; 66720; 68912; 69734; 69872; 69942; 70096; 70384; 70736;
   70864; 71248; 71360; 71472; 71904; 72016; 72784; 73040; 73120; 92768;
   92864; 93008; 120782; 120792; 120802; 120812; 120822; 123200; 123632;
   125264; 130032].

(** [Py_UNICODE_TODECIMAL] *)
Definition to_decimal (c : codepoint) : option N :=
  match find (fun z => (z <=? c) && (c <? z + 10)) decimal_zeros with
  | Some z => Some (c - z)
  | None => None
  end.

(** [_PyUnicode_TransformDecimalAndSpaceToASCII]: ASCII is kept, other
    white space becomes a blank, other decimal digits become ASCII
    digits, and the text is cut after the first other code point, which
    becomes a question mark. *)
Fixpoint transform_decimal_and_space (s : str) : str :=
  match s with
  | [] => []
  | c :: s' =>
    if c <? 127 then c :: transform_decimal_and_space s'
    else if isspace c then 32 :: transform_decimal_and_space s'
    else match to_decimal c with
         | Some d => (48 + d) :: transform_decimal_and_space s'
         | None => [63]
         end
  end.

(** [Py_ISSPACE] *)
Definition c_isspace (c : codepoint) : bool :=
  ((9 <=? c) && (c <=? 13)) || (c =? 32).

Fixpoint c_lstrip (s : str) : str :=
  match s with
  | [] => []
  | c :: s' => if c_isspace c then c_lstrip s' else s
  end.

Definition c_strip (s : str) : str := rev (c_lstrip (rev (c_lstrip s))).

Definition is_ascii_digit (c : codepoint) : bool := (48 <=? c) && (c <=? 57).

(** [_Py_string_to_number_with_underscores]: an underscore stands only
    between two digits; the underscores are then removed. *)
Fixpoint remove_underscores (prev : codepoint) (s : str) : option str :=
  match s with
  | [] => if prev =? 95 then None else Some []
  | c :: s' =>
    if c =? 95 then
      if is_ascii_digit prev then remove_underscores c s' else None
    else if (prev =? 95) && negb (is_ascii_digit c) then None
    else match remove_underscores c s' with
         | Some r => Some (c :: r)
         | None => None
         end
  end.

(** The run of ASCII digits at the head of [s], and the rest. *)
Fixpoint span_digits (s : str) : list N * str :=
  match s with
  | [] => ([], [])
  | c :: s' =>
    if is_ascii_digit c then
      let '(ds, r) := span_digits s' in (c - 48 :: ds, r)
    else ([], s)
  end.

Definition digits_value (ds : list N) : N :=
  fold_left (fun acc d => 10 * acc + d) ds 0.

Definition take_sign (s : str) : bool * str :=
  match s with
  | 45 :: s' => (true, s')
  | 43 :: s' => (false, s')
  | _ => (false, s)
  end.

(** The binary64 value nearest to [(-1)^sign * m * 10^e], ties to even
    (the result of [_Py_dg_strtod]); beyond the range, an infinity. *)
Definition decimal_to_float (sign : bool) (m : N) (e : Z) : float :=
  match m with
  | N0 => S754_zero sign
  | Npos p =>
    match e with
    | Z0 => binary_round prec emax sign p 0
    | Zpos k => binary_round prec emax sign (p * Pos.pow 10 k) 0
    | Zneg k =>
      SFdiv prec emax (S754_finite sign p 0)
            (S754_finite false (Pos.pow 10 k) 0)
    end
  end.

Definition ascii_lower (s : str) : str :=
  map (fun c => if (65 <=? c) && (c <=? 90) then c + 32 else c) s.

(** [_Py_parse_inf_or_nan], after the sign. *)
Definition parse_inf_or_nan (sign : bool) (s : str) : option float :=
  let l := ascii_lower s in
  if str_eqb l (u "inf") || str_eqb l (u "infinity") then
    Some (S754_infinity sign)
  else if str_eqb l (u "nan") then Some S754_nan
  else None.

(** The optional exponent part: [e] or [E], an optional sign, one digit
    at least.  Without such a part the exponent is 0 and nothing is
    consumed. *)
Definition parse_exponent (s : str) : Z * str :=
  match s with
  | c :: s1 =>
    if (c =? 101) || (c =? 69) then
      let '(neg, s2) := take_sign s1 in
      match span_digits s2 with
      | ([], _) => (0%Z, s)
      | (ds, r) =>
        let v := Z.of_N (digits_value ds) in
        ((if neg then - v else v)%Z, r)
      end
    else (0%Z, s)
  | [] => (0%Z, s)
  end.

(** [PyOS_string_to_double] on the whole text: sign, then an infinity, a
    NaN, or digits with an optional point and an optional exponent. *)
Definition string_to_double (s : str) : option float :=
  let '(sign, s1) := take_sign s in
  match parse_inf_or_nan sign s1 with
  | Some f => Some f
  | None =>
    let '(ip, s2) := span_digits s1 in
    let '(fp, s3) :=
      match s2 with
      | 46 :: s2' => span_digits s2'
      | _ => ([], s2)
      end in
    match ip ++ fp with
    | [] => None
    | ds =>
      let '(ex, s4) := parse_exponent s3 in
      match s4 with
      | [] =>
        Some (decimal_to_float sign (digits_value ds)
                (ex - Z.of_nat (List.length fp)))
      | _ :: _ => None
      end
    end
  end.

(** [float(s)] for a string [s]; [None] stands for [ValueError]. *)
Definition py_float (s : str) : option float :=
  match remove_underscores 0 (c_strip (transform_decimal_and_space s)) with
  | Some t => string_to_double t
  | None => None
  end.

(* ===================================================================== *)
(** * The pattern of [parse_candidate_header] *)
(* ===================================================================== *)

(** The pattern [^(.*?)\s*\((.*?)\)\s*$] uses two character classes, lazy
    captured repetitions, greedy repetitions, literals and the end
    anchor.  [re.match] anchors at the start of the text and explores
    the alternatives in the order of a backtracking matcher: a lazy
    repetition tries the shortest run first, a greedy one the longest. *)
Inductive char_class :=
| Dot      (* [.]: any code point but the line feed *)
| Space.   (* [\s] *)

Definition in_class (k : char_class) (c : codepoint) : bool :=
  match k with
  | Dot => negb (c =? 10)
  | Space => isspace c
  end.

Inductive item :=
| LazyGroup (k : char_class)   (* [(k*?)] *)
| Greedy (k : char_class)      (* [k*] *)
| Lit (c : codepoint)
| EndAnchor.                   (* [$] *)

(** [$] without [re.MULTILINE]: at the end, or before a final line feed. *)
Definition at_end (s : str) : bool :=
  match s with
  | [] => true
  | [c] => c =? 10
  | _ => false
  end.

(** The groups captured by the first successful alternative, in order. *)
Fixpoint re_match (p : list item) : str -> option (list str) :=
  match p with
  | [] => fun _ => Some []
  | Lit c :: p' => fun s =>
    match s with
    | x :: s' => if x =? c then re_match p' s' else None
    | [] => None
    end
  | EndAnchor :: p' => fun s => if at_end s then re_match p' s else None
  | Greedy k :: p' =>
    fix greedy (s : str) : option (list str) :=
      match s with
      | x :: s' =>
        if in_class k x then
          match greedy s' with
          | Some gs => Some gs
          | None => re_match p' s
          end
        else re_match p' s
      | [] => re_match p' s
      end
  | LazyGroup k :: p' =>
    fix lazy (s : str) : option (list str) :=
      match re_match p' s with
      | Some gs => Some ([] :: gs)
      | None =>
        match s with
        | x :: s' =>
          if in_class k x then
            match lazy s' with
            | Some (g :: gs) => Some ((x :: g) :: gs)
            | _ => None
            end
          else None
        | [] => None
        end
      end
  end.

Definition header_pattern : list item :=
  [LazyGroup Dot; Greedy Space; Lit 40; LazyGroup Dot; Lit 41; Greedy Space;
   EndAnchor].

(* ===================================================================== *)
(** * Python values, exceptions, records *)
(* ===================================================================== *)

(** A cell of the sheet read with [dtype=str] is a string or the missing
    marker NaN; [None] is what the scripts pass when a column is absent. *)
Inductive scalar :=
| SNone
| SNaN
| SStr (s : str).

(** What [DataFrame.at] returns: a scalar, or the Series of the cells of
    all the columns that carry the label when the label is not unique. *)
Inductive pyval :=
| PScalar (x : scalar)
| PSeries (xs : list scalar).

Definition scalar_eq_dec (a b : scalar) : {a = b} + {a <> b}.
Proof. decide equality. apply (list_eq_dec N.eq_dec). Defined.

Definition scalar_eqb (a b : scalar) : bool :=
  if scalar_eq_dec a b then true else false.

(** [str(x)] *)
Definition py_str (x : scalar) : str :=
  match x with
  | SNone => u "None"
  | SNaN => u "nan"
  | SStr s => s
  end.

Inductive exn :=
| EmptySheet        (* ValueError("Input sheet appears empty or is missing the header row.") *)
| MissingColumns    (* ValueError("Expected 'Tema' and 'Statement' columns in the sheet.") *)
| AmbiguousTruth    (* ValueError: The truth value of a Series is ambiguous *)
| KeyError.

Inductive result (A : Type) :=
| Ok (a : A)
| Raise (e : exn).
Arguments Ok {A} a.
Arguments Raise {A} e.

Definition bind {A B : Type} (r : result A) (k : A -> result B) : result B :=
  match r with
  | Ok a => k a
  | Raise e => Raise e
  end.

Notation "x <- c ;; k" := (bind c (fun x => k))
  (at level 61, c at next level, right associativity).

(** The [vote] field: a number, or in one script the position text. *)
Inductive vote_value :=
| VNum (f : float)
| VText (t : str).

Definition triple : Type := option vote_value * option str * option str.

Record VoteRecord := {
  tema : option str;
  question : str;
  vote : option vote_value;
  comment : option str;
  source : option str
}.

(** The float literals of the scripts, and 0.7 of the examples. *)
Definition float_1_0 : float := Eval vm_compute in decimal_to_float false 10 (-1).
Definition float_0_0 : float := Eval vm_compute in decimal_to_float false 0 (-1).
Definition float_0_5 : float := Eval vm_compute in decimal_to_float false 5 (-1).
Definition float_0_7 : float := Eval vm_compute in decimal_to_float false 7 (-1).

(** What [clean_text] gives on a scalar, in every script: the tests
    [s is None] and [pd.isna(s)], then [str(s).strip()]. *)
Definition clean_scalar (x : scalar) : option str :=
  match x with
  | SNone => None
  | SNaN => None
  | SStr s =>
    match strip s with
    | [] => None
    | t => Some t
    end
  end.

(* ===================================================================== *)
(** * Insertion-ordered dictionaries *)
(* ===================================================================== *)

Definition dict (K V : Type) : Type := list (K * V).

Section Dict.
Context {K V : Type}.
Variable eqb : K -> K -> bool.

(** [d.get(k)] *)
Fixpoint dict_get (k : K) (d : dict K V) : option V :=
  match d with
  | [] => None
  | (k', v) :: d' => if eqb k' k then Some v else dict_get k d'
  end.

(** [d[k] = v]: an existing key keeps its place, a new one goes last. *)
Fixpoint dict_set (k : K) (v : V) (d : dict K V) : dict K V :=
  match d with
  | [] => [(k, v)]
  | (k', v') :: d' =>
    if eqb k' k then (k', v) :: d' else (k', v') :: dict_set k v d'
  end.

Definition keys (d : dict K V) : list K := map fst d.
End Dict.

(* ===================================================================== *)
(** * The reshaping loop shared by the four scripts *)
(* ===================================================================== *)

Definition row := list scalar.
Definition table := list row.

(** An entry of [party_info] / [candidates_info].  [party] is [None] in
    the scripts whose entries have no such field. *)
Record entity := {
  header : scalar;
  name : scalar;
  party : option scalar;
  votes : dict str VoteRecord
}.

(** An entry of the output document. *)
Record entry := {
  entry_name : scalar;
  entry_party : option scalar;
  entry_votes : dict str VoteRecord
}.

Record document := {
  category : str;
  entities : dict scalar entry
}.

Definition Tema : scalar := SStr (u "Tema").
Definition Statement : scalar := SStr (u "Statement").

(** [label in data_frame.columns] *)
Definition has_column (columns : list scalar) (label : scalar) : bool :=
  existsb (scalar_eqb label) columns.

(** [column_name not in ("Tema", "Statement")] *)
Definition is_entity_column (column_name : scalar) : bool :=
  negb (scalar_eqb column_name Tema || scalar_eqb column_name Statement).

(** The cells of a row under the columns that carry [label]; a row
    shorter than the header is missing (NaN) there. *)
Fixpoint cells_at (columns : list scalar) (r : row) (label : scalar)
  : list scalar :=
  match columns with
  | [] => []
  | c :: cs =>
    let rest := cells_at cs (tl r) label in
    if scalar_eqb c label then hd SNaN r :: rest else rest
  end.

(** [data_frame.at[row_index, label] if label in data_frame.columns else None].
    With a label carried by several columns [at] falls back on [loc] and
    returns the Series of their cells. *)
Definition at_ (columns : list scalar) (r : row) (label : scalar) : pyval :=
  match cells_at columns r label with
  | [] => PScalar SNone
  | [x] => PScalar x
  | xs => PSeries xs
  end.

(** [f"{topic_text}: {statement_text}" if topic_text else statement_text] *)
Definition question_identifier (topic_text : option str) (statement_text : str)
  : str :=
  match topic_text with
  | Some (c :: t) => (c :: t) ++ u ": " ++ statement_text
  | _ => statement_text
  end.

Section Reshaper.
(** What differs between the scripts. *)
Variable head : table -> table.
Variable clean_text : pyval -> result (option str).
Variable parse_cell_combined : pyval -> result triple.
Variable enforced_defaults : triple.
Variable describe : scalar -> scalar * option scalar.
Variable output_key : str.

(** The body of the loop over the entity columns, from the cell to the
    record. *)
Definition cell_record (topic_text : option str) (statement_text : str)
           (cell_value : pyval) : result VoteRecord :=
  t <- parse_cell_combined cell_value ;;
  let t' :=
    match t with
    | (None, None, None) => enforced_defaults
    | _ => t
    end in
  let '(vote_value, comment_value, source_value) := t' in
  Ok {| tema := topic_text;
        question := statement_text;
        vote := vote_value;
        comment := comment_value;
        source := source_value |}.

(** [info[column]["votes"][question_identifier] = record] *)
Definition store (column : scalar) (qid : str) (rec : VoteRecord)
           (info : dict scalar entity) : result (dict scalar entity) :=
  match dict_get scalar_eqb column info with
  | None => Raise KeyError
  | Some e =>
    Ok (dict_set scalar_eqb column
          {| header := header e; name := name e; party := party e;
             votes := dict_set str_eqb qid rec (votes e) |} info)
  end.

Fixpoint each_column (columns : list scalar) (r : row)
         (topic_text : option str) (statement_text : str)
         (todo : list scalar) (info : dict scalar entity)
  : result (dict scalar entity) :=
  match todo with
  | [] => Ok info
  | column :: todo' =>
    rec <- cell_record topic_text statement_text (at_ columns r column) ;;
    info' <- store column (question_identifier topic_text statement_text)
                   rec info ;;
    each_column columns r topic_text statement_text todo' info'
  end.

Fixpoint each_row (columns : list scalar) (entity_columns : list scalar)
         (rows : list row) (info : dict scalar entity)
  : result (dict scalar entity) :=
  match rows with
  | [] => Ok info
  | r :: rows' =>
    topic_text <- clean_text (at_ columns r Tema) ;;
    statement_text <- clean_text (at_ columns r Statement) ;;
    match statement_text with
    | None => each_row columns entity_columns rows' info
    | Some statement_text =>
      info' <- each_column columns r topic_text statement_text
                           entity_columns info ;;
      each_row columns entity_columns rows' info'
    end
  end.

Definition new_entity (column : scalar) : entity :=
  let '(n, p) := describe column in
  {| header := column; name := n; party := p; votes := [] |}.

Definition init_info (entity_columns : list scalar) : dict scalar entity :=
  fold_left (fun info column => dict_set scalar_eqb column (new_entity column) info)
            entity_columns [].

Definition combined_output (info : dict scalar entity) : document :=
  {| category := output_key;
     entities :=
       fold_left
         (fun out kv =>
            let e := snd kv in
            dict_set scalar_eqb (header e)
              {| entry_name := name e; entry_party := party e;
                 entry_votes := votes e |} out)
         info [] |}.

(** The script from the sheet that was read to the document that is
    written; an exception leaves no file. *)
Definition reshape (raw_dataframe : table) : result document :=
  match head raw_dataframe with
  | [] => Raise EmptySheet
  | columns :: data_frame =>
    if negb (has_column columns Statement) || negb (has_column columns Tema)
    then Raise MissingColumns
    else
      let entity_columns := filter is_entity_column columns in
      info <- each_row columns entity_columns data_frame
                       (init_info entity_columns) ;;
      Ok (combined_output info)
  end.
End Reshaper.

(** [clean_text(parts[i]) if len(parts) >= i + 1 else None] *)
Definition clean_part (clean_text : pyval -> result (option str))
           (parts : list str) (i : nat) : result (option str) :=
  match nth_error parts i with
  | Some p => clean_text (PScalar (SStr p))
  | None => Ok None
  end.

Definition delimiter : str := u "***".

(* ===================================================================== *)
(** * build_data_chile_partidos_2025.py *)
(* ===================================================================== *)

Module ChilePartidos.

Definition MISSING_VOTE_DEFAULT : float := float_0_5.
Definition MISSING_COMMENT_DEFAULT : str :=
  u "No se encontró información pública sobre su posición.".
Definition MISSING_SOURCE_DEFAULT : option str := None.

(** A Series is squeezed: one of a single cell is that cell, any other
    stays a Series and cleans to [None]. *)
Definition clean_text (s : pyval) : result (option str) :=
  let squeezed :=
    match s with
    | PScalar x => Some x
    | PSeries [x] => Some x
    | PSeries _ => None
    end in
  match squeezed with
  | None => Ok None
  | Some SNone => Ok None
  | Some SNaN => Ok None
  | Some (SStr s) =>
    match strip s with
    | [] => Ok None
    | s => Ok (Some s)
    end
  end.

Definition map_vote_text_to_value (vote_text : option str) : option float :=
  match vote_text with
  | None => None
  | Some vote_text =>
    match strip vote_text with
    | [] => None
    | vt =>
      match py_float (replace_comma vt) with
      | Some num => Some num
      | None => None
      end
    end
  end.

Definition parse_cell_combined (cell_value : pyval) : result triple :=
  raw <- clean_text cell_value ;;
  match raw with
  | None =>
    Ok (Some (VNum MISSING_VOTE_DEFAULT), Some MISSING_COMMENT_DEFAULT,
        MISSING_SOURCE_DEFAULT)
  | Some raw =>
    let parts := split delimiter raw 2 in
    vote_part <- clean_part clean_text parts 0 ;;
    comment_part <- clean_part clean_text parts 1 ;;
    source_part <- clean_part clean_text parts 2 ;;
    let vote_mapped := map_vote_text_to_value vote_part in
    Ok (option_map VNum vote_mapped, comment_part, source_part)
  end.

Definition row_cap : nat := 15.

Definition generate_from_new_structure : table -> result document :=
  reshape (firstn row_cap) clean_text parse_cell_combined
          (Some (VNum MISSING_VOTE_DEFAULT), Some MISSING_COMMENT_DEFAULT,
           MISSING_SOURCE_DEFAULT)
          (fun party_column => (party_column, None))
          (u "parties").

End ChilePartidos.

(* ===================================================================== *)
(** * build_data_peru_partidos_2026.py *)
(* ===================================================================== *)

Module PeruPartidos.

Definition MISSING_VOTE_DEFAULT : float := float_0_5.
Definition MISSING_COMMENT_DEFAULT : str :=
  u "No se encontró información pública sobre su posición.".
Definition MISSING_SOURCE_DEFAULT : option str := None.

Definition number_of_topics : nat := 8.

(** [if pd.isna(s)] on a Series raises: its truth value is ambiguous. *)
Definition clean_text (s : pyval) : result (option str) :=
  match s with
  | PScalar SNone => Ok None
  | PScalar SNaN => Ok None
  | PSeries _ => Raise AmbiguousTruth
  | PScalar (SStr s) =>
    match strip s with
    | [] => Ok None
    | s => Ok (Some s)
    end
  end.

Definition map_vote_text_to_value (vote_text : option str) : option float :=
  match vote_text with
  | None => None
  | Some vote_text =>
    match strip vote_text with
    | [] => None
    | vt =>
      match py_float (replace_comma vt) with
      | Some num => Some num
      | None => None
      end
    end
  end.

Definition parse_cell_combined (cell_value : pyval) : result triple :=
  raw <- clean_text cell_value ;;
  match raw with
  | None =>
    Ok (Some (VNum MISSING_VOTE_DEFAULT), Some MISSING_COMMENT_DEFAULT,
        MISSING_SOURCE_DEFAULT)
  | Some raw =>
    let parts := split delimiter raw 2 in
    vote_part <- clean_part clean_text parts 0 ;;
    comment_part <- clean_part clean_text parts 1 ;;
    source_part <- clean_part clean_text parts 2 ;;
    let vote_mapped := map_vote_text_to_value vote_part in
    Ok (option_map VNum vote_mapped, comment_part, source_part)
  end.

(** The locals of [generate_from_new_structure]. *)
Definition missing_vote_default : float := float_0_5.
Definition missing_comment_default : str := u "No se encontró...".
Definition missing_source_default : option str := None.

Definition generate_from_new_structure : table -> result document :=
  reshape (firstn (number_of_topics + 1)) clean_text parse_cell_combined
          (Some (VNum missing_vote_default), Some missing_comment_default,
           missing_source_default)
          (fun party_column => (party_column, None))
          (u "parties").

End PeruPartidos.

(* ===================================================================== *)
(** * build_data_chile_presidencial_2025.py *)
(* ===================================================================== *)

Module ChilePresidencial.

Definition MISSING_VOTE_DEFAULT : float := float_0_5.
Definition MISSING_COMMENT_DEFAULT : str :=
  u "No se encontró información pública sobre su posición.".
Definition MISSING_SOURCE_DEFAULT : option str := None.

Definition clean_text (s : pyval) : result (option str) :=
  match s with
  | PScalar SNone => Ok None
  | PScalar SNaN => Ok None
  | PSeries _ => Raise AmbiguousTruth
  | PScalar (SStr s) =>
    match strip s with
    | [] => Ok None
    | s => Ok (Some s)
    end
  end.

Definition parse_candidate_header (header_str : scalar)
  : option str * option str :=
  match header_str with
  | SNone => (None, None)
  | _ =>
    let header_str := strip (py_str header_str) in
    match re_match header_pattern header_str with
    | Some [g1; g2] => (Some (strip g1), Some (strip g2))
    | _ => (Some header_str, None)
    end
  end.

(** The position text is returned as it is: there is no vote mapping in
    this script. *)
Definition parse_cell_combined (cell_value : pyval) : result triple :=
  raw <- clean_text cell_value ;;
  match raw with
  | None =>
    Ok (Some (VNum MISSING_VOTE_DEFAULT), Some MISSING_COMMENT_DEFAULT,
        MISSING_SOURCE_DEFAULT)
  | Some raw =>
    let parts := split delimiter raw 2 in
    vote_part <- clean_part clean_text parts 0 ;;
    comment_part <- clean_part clean_text parts 1 ;;
    source_part <- clean_part clean_text parts 2 ;;
    Ok (option_map VText vote_part, comment_part, source_part)
  end.

Definition row_cap : nat := 21.

Definition of_option (o : option str) : scalar :=
  match o with
  | Some s => SStr s
  | None => SNone
  end.

Definition generate_from_new_structure : table -> result document :=
  reshape (firstn row_cap) clean_text parse_cell_combined
          (Some (VNum MISSING_VOTE_DEFAULT), Some MISSING_COMMENT_DEFAULT,
           MISSING_SOURCE_DEFAULT)
          (fun candidate_column =>
             let '(candidate_name, candidate_party) :=
               parse_candidate_header candidate_column in
             (of_option candidate_name, Some (of_option candidate_party)))
          (u "candidates").

End ChilePresidencial.

(* ===================================================================== *)
(** * build_data_peru_pres_2026.py *)
(* ===================================================================== *)

Module PeruPres.

Definition MISSING_VOTE_DEFAULT : float := float_0_5.
Definition MISSING_COMMENT_DEFAULT : str :=
  u "No se encontró información pública sobre su posición.".
Definition MISSING_SOURCE_DEFAULT : option str := None.

Definition number_of_topics : nat := 8.

Definition clean_text (s : pyval) : result (option str) :=
  match s with
  | PScalar SNone => Ok None
  | PScalar SNaN => Ok None
  | PSeries _ => Raise AmbiguousTruth
  | PScalar (SStr s) =>
    match strip s with
    | [] => Ok None
    | s => Ok (Some s)
    end
  end.

Definition parse_candidate_header (header_str : scalar)
  : option str * option str :=
  match header_str with
  | SNone => (None, None)
  | _ =>
    let header_str := strip (py_str header_str) in
    match re_match header_pattern header_str with
    | Some [g1; g2] => (Some (strip g1), Some (strip g2))
    | _ => (Some header_str, None)
    end
  end.

Definition map_vote_text_to_value (vote_text : option str) : option float :=
  match vote_text with
  | None => None
  | Some vote_text =>
    match strip vote_text with
    | [] => None
    | vt =>
      match py_float (replace_comma vt) with
      | Some num => Some num
      | None =>
        let vt_low := lower vt in
        if contains (u "a favor") vt_low || str_eqb vt_low (u "favor")
        then Some float_1_0
        else if contains (u "en contra") vt_low || str_eqb (u "contra") vt_low
        then Some float_0_0
        else if contains (u "neutral") vt_low
        then Some float_0_5
        else if existsb (str_eqb vt_low) [u "sí"; u "si"; u "yes"]
        then Some float_1_0
        else if existsb (str_eqb vt_low) [u "no"]
        then Some float_0_0
        else None
      end
    end
  end.

Definition parse_cell_combined (cell_value : pyval) : result triple :=
  raw <- clean_text cell_value ;;
  match raw with
  | None =>
    Ok (Some (VNum MISSING_VOTE_DEFAULT), Some MISSING_COMMENT_DEFAULT,
        MISSING_SOURCE_DEFAULT)
  | Some raw =>
    let parts := split delimiter raw 2 in
    vote_part <- clean_part clean_text parts 0 ;;
    comment_part <- clean_part clean_text parts 1 ;;
    source_part <- clean_part clean_text parts 2 ;;
    let vote_mapped := map_vote_text_to_value vote_part in
    Ok (option_map VNum vote_mapped, comment_part, source_part)
  end.

(** The locals of [generate_from_new_structure]. *)
Definition missing_vote_default : float := float_0_5.
Definition missing_comment_default : str := u "No se encontró...".
Definition missing_source_default : option str := None.

Definition of_option (o : option str) : scalar :=
  match o with
  | Some s => SStr s
  | None => SNone
  end.

(** [head(number_of_topics + 1)] and then [head(12)]. *)
Definition generate_from_new_structure : table -> result document :=
  reshape (fun raw_dataframe =>
             firstn 12 (firstn (number_of_topics + 1) raw_dataframe))
          clean_text parse_cell_combined
          (Some (VNum missing_vote_default), Some missing_comment_default,
           missing_source_default)
          (fun candidate_column =>
             let '(candidate_name, candidate_party) :=
               parse_candidate_header candidate_column in
             (of_option candidate_name, Some (of_option candidate_party)))
          (u "candidates").

End PeruPres.

(* ===================================================================== *)
(** * The four scripts side by side *)
(* ===================================================================== *)

Inductive variant :=
| chile_partidos_2025
| peru_partidos_2026
| chile_presidencial_2025
| peru_pres_2026.

Definition clean_text (v : variant) : pyval -> result (option str) :=
  match v with
  | chile_partidos_2025 => ChilePartidos.clean_text
  | peru_partidos_2026 => PeruPartidos.clean_text
  | chile_presidencial_2025 => ChilePresidencial.clean_text
  | peru_pres_2026 => PeruPres.clean_text
  end.

Definition parse_cell_combined (v : variant) : pyval -> result triple :=
  match v with
  | chile_partidos_2025 => ChilePartidos.parse_cell_combined
  | peru_partidos_2026 => PeruPartidos.parse_cell_combined
  | chile_presidencial_2025 => ChilePresidencial.parse_cell_combined
  | peru_pres_2026 => PeruPres.parse_cell_combined
  end.

Definition generate_from_new_structure (v : variant)
  : table -> result document :=
  match v with
  | chile_partidos_2025 => ChilePartidos.generate_from_new_structure
  | peru_partidos_2026 => PeruPartidos.generate_from_new_structure
  | chile_presidencial_2025 => ChilePresidencial.generate_from_new_structure
  | peru_pres_2026 => PeruPres.generate_from_new_structure
  end.

(** What each script does with the cleaned position text. *)
Definition vote_mapping (v : variant) (vote_part : option str)
  : option vote_value :=
  match v with
  | chile_partidos_2025 =>
    option_map VNum (ChilePartidos.map_vote_text_to_value vote_part)
  | peru_partidos_2026 =>
    option_map VNum (PeruPartidos.map_vote_text_to_value vote_part)
  | chile_presidencial_2025 => option_map VText vote_part
  | peru_pres_2026 =>
    option_map VNum (PeruPres.map_vote_text_to_value vote_part)
  end.

(** The triple that the record gets when the parsed triple is all
    [None]. *)
Definition enforced_defaults (v : variant) : triple :=
  match v with
  | chile_partidos_2025 =>
    (Some (VNum ChilePartidos.MISSING_VOTE_DEFAULT),
     Some ChilePartidos.MISSING_COMMENT_DEFAULT,
     ChilePartidos.MISSING_SOURCE_DEFAULT)
  | peru_partidos_2026 =>
    (Some (VNum PeruPartidos.missing_vote_default),
     Some PeruPartidos.missing_comment_default,
     PeruPartidos.missing_source_default)
  | chile_presidencial_2025 =>
    (Some (VNum ChilePresidencial.MISSING_VOTE_DEFAULT),
     Some ChilePresidencial.MISSING_COMMENT_DEFAULT,
     ChilePresidencial.MISSING_SOURCE_DEFAULT)
  | peru_pres_2026 =>
    (Some (VNum PeruPres.missing_vote_default),
     Some PeruPres.missing_comment_default,
     PeruPres.missing_source_default)
  end.

(** The effective number of raw rows that [head] keeps. *)
Definition row_cap (v : variant) : nat :=
  match v with
  | chile_partidos_2025 => 15
  | peru_partidos_2026 => 9
  | chile_presidencial_2025 => 21
  | peru_pres_2026 => 9
  end.

Definition head (v : variant) : table -> table :=
  match v with
  | chile_partidos_2025 => firstn ChilePartidos.row_cap
  | peru_partidos_2026 => firstn (PeruPartidos.number_of_topics + 1)
  | chile_presidencial_2025 => firstn ChilePresidencial.row_cap
  | peru_pres_2026 =>
    fun raw_dataframe =>
      firstn 12 (firstn (PeruPres.number_of_topics + 1) raw_dataframe)
  end.

Definition describe (v : variant) (column : scalar) : scalar * option scalar :=
  match v with
  | chile_partidos_2025 => (column, None)
  | peru_partidos_2026 => (column, None)
  | chile_presidencial_2025 =>
    let '(n, p) := ChilePresidencial.parse_candidate_header column in
    (ChilePresidencial.of_option n, Some (ChilePresidencial.of_option p))
  | peru_pres_2026 =>
    let '(n, p) := PeruPres.parse_candidate_header column in
    (PeruPres.of_option n, Some (PeruPres.of_option p))
  end.

Definition output_key (v : variant) : str :=
  match v with
  | chile_partidos_2025 | peru_partidos_2026 => u "parties"
  | chile_presidencial_2025 | peru_pres_2026 => u "candidates"
  end.

(** The missing-cell default triple. *)
Definition missing_cell_default : triple :=
  (Some (VNum float_0_5),
   Some (u "No se encontró información pública sobre su posición."),
   None).

(** The cell interpreter with the treatment of the position text left
    open: every script's [parse_cell_combined] is an instance. *)
Definition parse_cell_with (clean : pyval -> result (option str))
           (mapping : option str -> option vote_value)
           (cell_value : pyval) : result triple :=
  raw <- clean cell_value ;;
  match raw with
  | None => Ok missing_cell_default
  | Some raw =>
    let parts := split delimiter raw 2 in
    vote_part <- clean_part clean parts 0 ;;
    comment_part <- clean_part clean parts 1 ;;
    source_part <- clean_part clean parts 2 ;;
    Ok (mapping vote_part, comment_part, source_part)
  end.

(** The record that a script stores for a cell. *)
Definition vote_record (v : variant)
           (topic_text : option str) (statement_text : str) (cell_value : pyval)
  : result VoteRecord :=
  cell_record (parse_cell_combined v) (enforced_defaults v)
              topic_text statement_text cell_value.

(* ===================================================================== *)
(** * Definitions used by the statements *)
(* ===================================================================== *)

(** A segment of the split cell, cleaned on its own: [None] when the cell
    has no such segment or when it is blank. *)
Definition cleaned_segment (parts : list str) (i : nat) : option str :=
  match nth_error parts i with
  | Some p => clean_scalar (SStr p)
  | None => None
  end.

(** The vocabulary of the specification, in its order: a test on the
    lower-cased text and the value it stands for. *)
Definition vocabulary : list ((str -> bool) * float) :=
  [ (fun t => contains (u "a favor") t || str_eqb t (u "favor"), float_1_0);
    (fun t => contains (u "en contra") t || str_eqb t (u "contra"), float_0_0);
    (fun t => contains (u "neutral") t, float_0_5);
    (fun t => str_eqb t (u "sí") || str_eqb t (u "si") || str_eqb t (u "yes"),
     float_1_0);
    (fun t => str_eqb t (u "no"), float_0_0) ].

(** The first rule of the vocabulary that matches wins. *)
Definition first_match (t : str) : option float :=
  option_map snd (find (fun rule => fst rule t) vocabulary).

(** [mapVote] as the specification words it: absent or empty gives
    absent; a numeric parse, with the comma read as a period, gives the
    number; otherwise the vocabulary decides, case-insensitively. *)
Definition mapVote (text : option str) : option float :=
  match text with
  | None => None
  | Some text =>
    match strip text with
    | [] => None
    | t =>
      match py_float (replace_comma t) with
      | Some x => Some x
      | None => first_match (lower t)
      end
    end
  end.

(** An entity with its votes replaced. *)
Definition with_votes (e : entity) (d : dict str VoteRecord) : entity :=
  {| header := header e; name := name e; party := party e; votes := d |}.

(** The entry of the output document for an entity. *)
Definition entry_of (e : entity) : entry :=
  {| entry_name := name e; entry_party := party e; entry_votes := votes e |}.

Section RowsAndColumns.
Variable clean : pyval -> result (option str).
Variable parse : pyval -> result triple.
Variable enforced : triple.
Variable columns : list scalar.

(** The cleaned topic and statement of a row; [None] for a row that is
    skipped. *)
Definition row_question (r : row) : result (option (option str * str)) :=
  topic_text <- clean (at_ columns r Tema) ;;
  statement_text <- clean (at_ columns r Statement) ;;
  Ok (option_map (pair topic_text) statement_text).

(** What a row writes into the votes of one entity. *)
Definition write_cell (r : row) (topic_text : option str)
           (statement_text : str) (column : scalar)
           (d : dict str VoteRecord) : dict str VoteRecord :=
  match cell_record parse enforced topic_text statement_text
                    (at_ columns r column) with
  | Ok rec => dict_set str_eqb (question_identifier topic_text statement_text) rec d
  | Raise _ => d
  end.

(** The votes of one entity after the rows, in row order. *)
Fixpoint votes_after (rows : list row) (column : scalar)
         (d : dict str VoteRecord) : dict str VoteRecord :=
  match rows with
  | [] => d
  | r :: rows' =>
    match row_question r with
    | Ok (Some (topic_text, statement_text)) =>
      votes_after rows' column (write_cell r topic_text statement_text column d)
    | _ => votes_after rows' column d
    end
  end.

(** The question identifiers of the rows, each at its first occurrence. *)
Fixpoint question_keys (rows : list row) (ks : list str) : list str :=
  match rows with
  | [] => ks
  | r :: rows' =>
    match row_question r with
    | Ok (Some (topic_text, statement_text)) =>
      let q := question_identifier topic_text statement_text in
      question_keys rows' (if existsb (str_eqb q) ks then ks else ks ++ [q])
    | _ => question_keys rows' ks
    end
  end.
End RowsAndColumns.

(** The keys of [info] are distinct and each entity sits under its own
    header. *)
Definition well_keyed (info : dict scalar entity) : Prop :=
  NoDup (keys info) /\ forall k e, In (k, e) info -> header e = k.

(** The document of a run, empty when the run raised. *)
Definition document_of (r : result document) : document :=
  match r with
  | Ok doc => doc
  | Raise _ => {| category := []; entities := [] |}
  end.

(** The two conditions that the scripts test before the loop: no row is
    left after truncation, or a mandatory column is missing. *)
Definition fatal_condition (v : variant) (t : table) : bool :=
  match head v t with
  | [] => true
  | columns :: _ =>
    negb (has_column columns Statement) || negb (has_column columns Tema)
  end.

(** [isinstance(s, pd.Series)] *)
Definition is_series (x : pyval) : bool :=
  match x with
  | PSeries _ => true
  | PScalar _ => false
  end.

(** The record of a missing cell. *)
Definition missing_cell_record (topic_text : option str) (statement_text : str)
  : VoteRecord :=
  {| tema := topic_text;
     question := statement_text;
     vote := Some (VNum float_0_5);
     comment := Some (u "No se encontró información pública sobre su posición.");
     source := None |}.

(** A text without comma or period. *)
Definition no_separator (p : str) : bool :=
  forallb (fun c => negb ((c =? 44) || (c =? 46))) p.

(** What a match says about the text: it begins with the runs and the
    literals of the pattern in their order, each run within its class,
    the captured runs being the groups. *)
Fixpoint matched (p : list item) (s : str) (gs : list str) : Prop :=
  match p with
  | [] => gs = []
  | Lit c :: p' => exists s', s = c :: s' /\ matched p' s' gs
  | EndAnchor :: p' => at_end s = true /\ matched p' s gs
  | Greedy k :: p' =>
    exists w s',
      s = w ++ s' /\ forallb (in_class k) w = true /\ matched p' s' gs
  | LazyGroup k :: p' =>
    exists g gs' s',
      gs = g :: gs' /\ s = g ++ s' /\ forallb (in_class k) g = true
      /\ matched p' s' gs'
  end.

(** What the name and the party read by [parse_candidate_header] say
    about the header: the name is trimmed; without party it is the
    whole trimmed header; with a party the trimmed header is a text, white
    space and a parenthesized text, both without line feed, of which
    name and party are the trimmed forms. *)
Definition header_reading (parse : scalar -> option str * option str)
           (header_str : str) : Prop :=
  exists n,
    fst (parse (SStr header_str)) = Some n
    /\ strip n = n
    /\ match snd (parse (SStr header_str)) with
       | None => n = strip header_str
       | Some p =>
         strip p = p
         /\ exists g1 w g2,
             strip header_str = g1 ++ w ++ u "(" ++ g2 ++ u ")"
             /\ forallb isspace w = true
             /\ n = strip g1 /\ p = strip g2
             /\ ~ In 10 g1 /\ ~ In 10 g2
       end.

(** The labels of a header row, each at its first occurrence. *)
Fixpoint distinct_headers (labels : list scalar) (ks : list scalar)
  : list scalar :=
  match labels with
  | [] => ks
  | c :: labels' =>
    distinct_headers labels' (if existsb (scalar_eqb c) ks then ks else ks ++ [c])
  end.

(* ===================================================================== *)
(** * Basic facts *)
(* ===================================================================== *)

Lemma str_eqb_eq (a b : str) : str_eqb a b = true <-> a = b.
Proof.
  unfold str_eqb. destruct (list_eq_dec N.eq_dec a b); split; congruence.
Qed.

Lemma str_eqb_refl (a : str) : str_eqb a a = true.
Proof. now apply str_eqb_eq. Qed.

Lemma scalar_eqb_eq (a b : scalar) : scalar_eqb a b = true <-> a = b.
Proof. unfold scalar_eqb. destruct (scalar_eq_dec a b); split; congruence. Qed.

Lemma scalar_eqb_refl (a : scalar) : scalar_eqb a a = true.
Proof. now apply scalar_eqb_eq. Qed.

(** The models of the built-ins on a few inputs. *)
Lemma py_float_examples :
  py_float (u "0.1") = Some (S754_finite false 7205759403792794 (-56))
  /\ py_float (u "1e23") = Some (S754_finite false 5960464477539062 24)
  /\ py_float (u "5e-324") = Some (S754_finite false 1 (-1074))
  /\ py_float (u "9007199254740993") = Some (S754_finite false 4503599627370496 1)
  /\ py_float (u "1e400") = Some (S754_infinity false)
  /\ py_float (u "-0") = Some (S754_zero true)
  /\ py_float (u "1_000") = Some (S754_finite false 8796093022208000 (-43))
  /\ py_float [1633; 1634] = py_float (u "12")
  /\ py_float (u " NaN ") = Some S754_nan
  /\ py_float (u "1__0") = None
  /\ py_float (u "1e") = None
  /\ py_float (u "0x10") = None
  /\ py_float (u "1 0") = None
  /\ py_float (u "") = None.
Proof. repeat split; vm_compute; reflexivity. Qed.

Lemma split_examples :
  split delimiter (u "****") 2 = [[]; u "*"]
  /\ split delimiter (u "a***b***c***d") 2 = [u "a"; u "b"; u "c***d"]
  /\ split delimiter (u "*** ***") 2 = [[]; u " "; []]
  /\ split delimiter (u "a**b") 2 = [u "a**b"].
Proof. repeat split; vm_compute; reflexivity. Qed.

Lemma re_match_examples :
  re_match header_pattern (u "A (x) (B)") = Some [u "A"; u "x) (B"]
  /\ re_match header_pattern (u "(B)") = Some [[]; u "B"]
  /\ re_match header_pattern (u "A (B) C") = None
  /\ re_match header_pattern (u "A B") = None.
Proof. repeat split; vm_compute; reflexivity. Qed.

Lemma parse_cell_combined_with (v : variant) (cell_value : pyval) :
  parse_cell_combined v cell_value
  = parse_cell_with (clean_text v) (vote_mapping v) cell_value.
Proof. destruct v; reflexivity. Qed.

Lemma generate_reshape (v : variant) (t : table) :
  generate_from_new_structure v t
  = reshape (head v) (clean_text v) (parse_cell_combined v)
            (enforced_defaults v) (describe v) (output_key v) t.
Proof. destruct v; reflexivity. Qed.

(** On a scalar every script cleans alike, and never raises. *)
Lemma clean_text_scalar (v : variant) (x : scalar) :
  clean_text v (PScalar x) = Ok (clean_scalar x).
Proof.
  destruct v, x as [| |s]; try reflexivity;
    unfold clean_text, ChilePartidos.clean_text, PeruPartidos.clean_text,
      ChilePresidencial.clean_text, PeruPres.clean_text, clean_scalar;
    destruct (strip s); reflexivity.
Qed.

Lemma clean_part_scalar (v : variant) (parts : list str) (i : nat) :
  clean_part (clean_text v) parts i
  = Ok (match nth_error parts i with
        | Some p => clean_scalar (SStr p)
        | None => None
        end).
Proof.
  unfold clean_part. destruct (nth_error parts i); [apply clean_text_scalar|reflexivity].
Qed.

(* ===================================================================== *)
(** * Splitting on the delimiter *)
(* ===================================================================== *)

Section SplitFacts.
Variable sep : str.
Hypothesis sep_nonempty : sep <> [].

Lemma strip_prefix_Some (p s r : str) :
  strip_prefix p s = Some r <-> s = p ++ r.
Proof.
  revert s. induction p as [|a p IH]; intros s; simpl.
  - split; congruence.
  - destruct s as [|b s]; [split; discriminate|].
    destruct (N.eqb_spec a b) as [->|Hab].
    + rewrite IH. split; congruence.
    + split; [discriminate|]. intros H. injection H as H _. congruence.
Qed.

Lemma contains_nil : contains sep [] = false.
Proof. destruct sep; [congruence|reflexivity]. Qed.

Lemma partition_Some (s a b : str) :
  partition sep s = Some (a, b) ->
  s = a ++ sep ++ b /\ contains sep a = false.
Proof.
  revert a b. induction s as [|c s IH]; intros a b H.
  - simpl in H. destruct (strip_prefix sep []) as [rest|] eqn:E; [|discriminate].
    injection H as <- <-. apply strip_prefix_Some in E.
    split; [exact E|apply contains_nil].
  - simpl in H. destruct (strip_prefix sep (c :: s)) as [rest|] eqn:E.
    + injection H as <- <-. apply strip_prefix_Some in E.
      split; [exact E|apply contains_nil].
    + destruct (partition sep s) as [[a' b']|] eqn:P; [|discriminate].
      injection H as <- <-. destruct (IH a' b' eq_refl) as [Hs Ha].
      split; [simpl; congruence|].
      simpl. destruct (strip_prefix sep (c :: a')) as [r|] eqn:E'; [|exact Ha].
      apply strip_prefix_Some in E'.
      assert (Hc : strip_prefix sep (c :: s) = Some (r ++ sep ++ b')).
      { apply strip_prefix_Some. rewrite Hs, app_comm_cons, E'.
        now rewrite <- app_assoc. }
      congruence.
Qed.

Lemma partition_None (s : str) :
  partition sep s = None -> contains sep s = false.
Proof.
  induction s as [|c s IH]; intros H.
  - apply contains_nil.
  - simpl in *. destruct (strip_prefix sep (c :: s)); [discriminate|].
    destruct (partition sep s) as [[a b]|]; [discriminate|]. now apply IH.
Qed.

Lemma split_nonempty (s : str) (n : nat) : split sep s n <> [].
Proof. destruct n; simpl; [|destruct (partition sep s) as [[a b]|]]; discriminate. Qed.

Lemma split_length (s : str) (n : nat) :
  (1 <= List.length (split sep s n) <= S n)%nat.
Proof.
  revert s. induction n as [|n IH]; intros s; simpl; [lia|].
  destruct (partition sep s) as [[a b]|]; simpl; [|lia].
  specialize (IH b). lia.
Qed.

(** Joining the segments gives the text back. *)
Lemma join_split (s : str) (n : nat) : join sep (split sep s n) = s.
Proof.
  revert s. induction n as [|n IH]; intros s; simpl; [reflexivity|].
  destruct (partition sep s) as [[a b]|] eqn:P; [|reflexivity].
  apply partition_Some in P as [-> _].
  specialize (IH b). pose proof (split_nonempty b n) as Hne.
  destruct (split sep b n) as [|p ps]; [congruence|]. simpl in *. now rewrite IH.
Qed.

(** Every segment but the last is free of the delimiter. *)
Lemma split_inner_free (s : str) (n i : nat) :
  (S i < List.length (split sep s n))%nat ->
  contains sep (nth i (split sep s n) []) = false.
Proof.
  revert s i. induction n as [|n IH]; intros s i; simpl; [lia|].
  destruct (partition sep s) as [[a b]|] eqn:P; simpl; [|lia].
  intros Hi. destruct i as [|i].
  - now apply partition_Some in P.
  - apply IH. lia.
Qed.

(** With fewer segments than allowed, the last is free of it too. *)
Lemma split_short_free (s : str) (n i : nat) :
  (List.length (split sep s n) <= n)%nat ->
  contains sep (nth i (split sep s n) []) = false.
Proof.
  revert s i. induction n as [|n IH]; intros s i; simpl; [lia|].
  destruct (partition sep s) as [[a b]|] eqn:P; simpl.
  - intros Hl. destruct i as [|i].
    + now apply partition_Some in P.
    + apply IH. lia.
  - intros _. destruct i as [|[|i]]; simpl;
      [now apply partition_None|apply contains_nil|apply contains_nil].
Qed.
End SplitFacts.

Lemma delimiter_nonempty : delimiter <> [].
Proof. discriminate. Qed.

Lemma parse_cell_with_present (v : variant) (mapping : option str -> option vote_value)
      (cell_value : pyval) (raw : str) :
  clean_text v cell_value = Ok (Some raw) ->
  parse_cell_with (clean_text v) mapping cell_value
  = Ok (mapping (cleaned_segment (split delimiter raw 2) 0),
        cleaned_segment (split delimiter raw 2) 1,
        cleaned_segment (split delimiter raw 2) 2).
Proof.
  intros H. unfold parse_cell_with. rewrite H. simpl.
  now rewrite !clean_part_scalar.
Qed.

Lemma parse_cell_with_absent (v : variant) (mapping : option str -> option vote_value)
      (cell_value : pyval) :
  clean_text v cell_value = Ok None ->
  parse_cell_with (clean_text v) mapping cell_value = Ok missing_cell_default.
Proof. intros H. unfold parse_cell_with. now rewrite H. Qed.

(* ===================================================================== *)
(** * Cell interpreter *)
(* ===================================================================== *)

(** C1. A cell that cleans to absent is interpreted as the missing-cell
    default triple (vote 0.5, the placeholder comment, no source) in each
    of the four scripts, whatever is done with position texts: the vote
    mapping has no part in the result. *)
Theorem C1_absent_cell_default (v : variant) (cell_value : pyval) :
  clean_text v cell_value = Ok None ->
  parse_cell_combined v cell_value = Ok missing_cell_default
  /\ forall mapping,
       parse_cell_with (clean_text v) mapping cell_value
       = Ok missing_cell_default.
Proof.
  intros H. split.
  - rewrite parse_cell_combined_with. now apply parse_cell_with_absent.
  - intros mapping. now apply parse_cell_with_absent.
Qed.

Lemma C1_absent_cell_default_witness :
  parse_cell_combined peru_pres_2026 (PScalar (SStr (u "   ")))
  = Ok missing_cell_default
  /\ forall mapping,
       parse_cell_with (clean_text peru_pres_2026) mapping
                       (PScalar (SStr (u "   ")))
       = Ok missing_cell_default.
Proof.
  apply (C1_absent_cell_default peru_pres_2026 (PScalar (SStr (u "   ")))).
  reflexivity.
Defined.

(** The scalars that clean to absent: [None], NaN, and the texts made of
    white space only (the empty text among them). *)
Lemma lstrip_nil (s : str) : lstrip s = [] <-> forallb isspace s = true.
Proof.
  induction s as [|c s IH]; simpl; [tauto|].
  destruct (isspace c); simpl; [exact IH|]. split; discriminate.
Qed.

Lemma rstrip_nil (s : str) : rstrip s = [] <-> forallb isspace s = true.
Proof.
  induction s as [|c s IH]; simpl; [tauto|].
  fold (rstrip s). destruct (rstrip s) as [|x r].
  - destruct (isspace c); simpl; [tauto|]. split; discriminate.
  - split; [discriminate|]. intros H. apply andb_true_iff in H as [_ H].
    now apply IH in H.
Qed.

Lemma lstrip_head (s : str) :
  match lstrip s with
  | [] => True
  | c :: _ => isspace c = false
  end.
Proof.
  induction s as [|c s IH]; simpl; [exact I|].
  destruct (isspace c) eqn:E; [exact IH|exact E].
Qed.

Lemma strip_nil (s : str) : strip s = [] <-> forallb isspace s = true.
Proof.
  unfold strip. rewrite rstrip_nil. split.
  - intros H. apply lstrip_nil. pose proof (lstrip_head s) as Hh.
    destruct (lstrip s) as [|c r]; [reflexivity|].
    simpl in H. rewrite Hh in H. discriminate.
  - intros H. apply lstrip_nil in H. now rewrite H.
Qed.

Lemma clean_scalar_absent (x : scalar) :
  clean_scalar x = None
  <-> x = SNone \/ x = SNaN \/ exists s, x = SStr s /\ forallb isspace s = true.
Proof.
  destruct x as [| |s]; simpl.
  - tauto.
  - tauto.
  - destruct (strip s) eqn:E.
    + apply strip_nil in E. split; [|reflexivity]. intros _. right. right. eauto.
    + split; [discriminate|]. intros [H|[H|[s' [H Hs]]]]; try discriminate.
      injection H as <-. apply strip_nil in Hs. congruence.
Qed.

(** C5. A cell that does not clean to absent is split on the literal
    delimiter into at most three segments: joining the segments with the
    delimiter gives the cell text back, no segment before the last holds
    the delimiter (so a third delimiter and what follows stay in the
    third segment), and fewer than three segments hold none at all.  Each
    segment is cleaned on its own; the second is the comment and the
    third the source, unchanged, in each script.  In the script with the
    vocabulary, ["A favor***Buena propuesta***http://x"] gives vote 1.0,
    comment ["Buena propuesta"], source ["http://x"], and
    ["0.7***Comentario"] gives vote 0.7, comment ["Comentario"], no
    source. *)
Theorem C5_delimiter_segments :
  (forall (v : variant) (cell_value : pyval) (raw : str),
      clean_text v cell_value = Ok (Some raw) ->
      let parts := split delimiter raw 2 in
      (1 <= List.length parts <= 3)%nat
      /\ join delimiter parts = raw
      /\ (forall i, (S i < List.length parts)%nat ->
                    contains delimiter (nth i parts []) = false)
      /\ ((List.length parts < 3)%nat ->
          forall i, contains delimiter (nth i parts []) = false)
      /\ parse_cell_combined v cell_value
         = Ok (vote_mapping v (cleaned_segment parts 0),
               cleaned_segment parts 1,
               cleaned_segment parts 2))
  /\ PeruPres.parse_cell_combined
       (PScalar (SStr (u "A favor***Buena propuesta***http://x")))
     = Ok (Some (VNum float_1_0), Some (u "Buena propuesta"), Some (u "http://x"))
  /\ PeruPres.parse_cell_combined (PScalar (SStr (u "0.7***Comentario")))
     = Ok (Some (VNum float_0_7), Some (u "Comentario"), None)
  /\ PeruPres.parse_cell_combined (PScalar (SStr (u "1***b***c***d***e")))
     = Ok (Some (VNum float_1_0), Some (u "b"), Some (u "c***d***e")).
Proof.
  split; [|repeat split; vm_compute; reflexivity].
  intros v cell_value raw H parts.
  pose proof (split_length delimiter raw 2) as Hlen.
  repeat split.
  - apply Hlen.
  - apply Hlen.
  - apply join_split, delimiter_nonempty.
  - intros i. apply split_inner_free, delimiter_nonempty.
  - intros Hl i. apply split_short_free; [apply delimiter_nonempty|].
    unfold parts in Hl. lia.
  - rewrite parse_cell_combined_with. now apply parse_cell_with_present.
Qed.

Lemma C5_delimiter_segments_witness :
  let cell := PScalar (SStr (u " 0,5*** ***fuente ")) in
  let parts := split delimiter (u "0,5*** ***fuente") 2 in
  (1 <= List.length parts <= 3)%nat
  /\ join delimiter parts = u "0,5*** ***fuente"
  /\ (forall i, (S i < List.length parts)%nat ->
                contains delimiter (nth i parts []) = false)
  /\ ((List.length parts < 3)%nat ->
      forall i, contains delimiter (nth i parts []) = false)
  /\ parse_cell_combined chile_partidos_2025 cell
     = Ok (vote_mapping chile_partidos_2025 (cleaned_segment parts 0),
           cleaned_segment parts 1,
           cleaned_segment parts 2).
Proof.
  apply (proj1 C5_delimiter_segments chile_partidos_2025
               (PScalar (SStr (u " 0,5*** ***fuente ")))).
  reflexivity.
Defined.

(** The numeric example holds in the two numeric-only scripts as well. *)
Lemma numeric_cell_example (v : variant) :
  v <> chile_presidencial_2025 ->
  parse_cell_combined v (PScalar (SStr (u "0.7***Comentario")))
  = Ok (Some (VNum float_0_7), Some (u "Comentario"), None).
Proof. destruct v; intros H; try congruence; vm_compute; reflexivity. Qed.

(* ===================================================================== *)
(** * Vote text mapper *)
(* ===================================================================== *)

Lemma str_eqb_sym (a b : str) : str_eqb a b = str_eqb b a.
Proof.
  destruct (str_eqb a b) eqn:E.
  - apply str_eqb_eq in E. subst. symmetry. apply str_eqb_refl.
  - destruct (str_eqb b a) eqn:E'; [|reflexivity].
    apply str_eqb_eq in E'. subst. now rewrite str_eqb_refl in E.
Qed.

Lemma peru_pres_map_vote_refines (text : option str) :
  PeruPres.map_vote_text_to_value text = mapVote text.
Proof.
  destruct text as [text|]; [|reflexivity].
  unfold PeruPres.map_vote_text_to_value, mapVote.
  destruct (strip text) as [|c t]; [reflexivity|].
  destruct (py_float (replace_comma (c :: t))); [reflexivity|].
  unfold first_match, vocabulary. cbn [find fst snd existsb].
  rewrite (str_eqb_sym (u "contra")).
  repeat match goal with
         | |- context [contains ?a ?b] =>
           destruct (contains a b); cbn [orb option_map snd]; try reflexivity
         | |- context [str_eqb ?a ?b] =>
           destruct (str_eqb a b); cbn [orb option_map snd]; try reflexivity
         end.
Qed.

(** C4. In the script with the vocabulary the vote mapper coincides with
    [mapVote]: the numeric parse comes first and its result is returned
    as it is, inside [0,1] or not; when it fails the vocabulary is tried
    in its order on the lower-cased text, the first match wins, and no
    match gives absent.  ["A favor"], ["a favor de algo"], ["1"] and
    ["1,0"] give 1.0, ["En contra"] gives 0.0, ["neutral"] gives 0.5 and
    ["tal vez"] gives absent. *)
Theorem C4_vote_text_mapping :
  (forall text, PeruPres.map_vote_text_to_value text = mapVote text)
  /\ (forall text x,
         strip text <> [] ->
         py_float (replace_comma (strip text)) = Some x ->
         PeruPres.map_vote_text_to_value (Some text) = Some x)
  /\ (forall text,
         strip text <> [] ->
         py_float (replace_comma (strip text)) = None ->
         PeruPres.map_vote_text_to_value (Some text)
         = first_match (lower (strip text)))
  /\ map (fun s => PeruPres.map_vote_text_to_value (Some (u s)))
         ["A favor"; "a favor de algo"; "1"; "1,0"; "En contra"; "neutral";
          "tal vez"]%string
     = [Some float_1_0; Some float_1_0; Some float_1_0; Some float_1_0;
        Some float_0_0; Some float_0_5; None].
Proof.
  split; [exact peru_pres_map_vote_refines|].
  split; [|split; [|vm_compute; reflexivity]].
  - intros text x Hne Hf. rewrite peru_pres_map_vote_refines. unfold mapVote.
    destruct (strip text) as [|c t]; [congruence|]. now rewrite Hf.
  - intros text Hne Hf. rewrite peru_pres_map_vote_refines. unfold mapVote.
    destruct (strip text) as [|c t]; [congruence|]. now rewrite Hf.
Qed.

(** A number outside [0,1] and a text that two rules match. *)
Lemma C4_vote_text_mapping_witness :
  PeruPres.map_vote_text_to_value (Some (u " -2,5 "))
  = Some (decimal_to_float true 25 (-1))
  /\ PeruPres.map_vote_text_to_value (Some (u "No, en contra"))
     = first_match (lower (strip (u "No, en contra"))).
Proof.
  split.
  - apply (proj1 (proj2 C4_vote_text_mapping) (u " -2,5 ")).
    + vm_compute. discriminate.
    + vm_compute. reflexivity.
  - apply (proj1 (proj2 (proj2 C4_vote_text_mapping)) (u "No, en contra")).
    + vm_compute. discriminate.
    + vm_compute. reflexivity.
Defined.

(** The two party scripts parse numbers only: a position text that is
    not numeric maps to absent. *)
Lemma numeric_only_mapping (v : variant) (text : str) :
  v = chile_partidos_2025 \/ v = peru_partidos_2026 ->
  vote_mapping v (Some text)
  = match strip text with
    | [] => None
    | t => option_map VNum (py_float (replace_comma t))
    end.
Proof.
  intros [-> | ->]; cbn [vote_mapping];
    unfold ChilePartidos.map_vote_text_to_value,
      PeruPartidos.map_vote_text_to_value;
    destruct (strip text) as [|c t]; try reflexivity;
    destruct (py_float (replace_comma (c :: t))); reflexivity.
Qed.

Lemma numeric_only_non_numeric (v : variant) (text : str) :
  v = chile_partidos_2025 \/ v = peru_partidos_2026 ->
  py_float (replace_comma (strip text)) = None ->
  vote_mapping v (Some text) = None.
Proof.
  intros Hv Hf. rewrite numeric_only_mapping by exact Hv.
  destruct (strip text); [reflexivity|]. now rewrite Hf.
Qed.

(** C3. Of the four scripts, the two party scripts parse numbers only,
    and the Peruvian candidate script applies the numeric parse and then
    the vocabulary.  The Chilean candidate script applies no mapping: it
    stores the cleaned position text itself, so that ["A favor"] and
    ["1"] stay texts where the mapping gives the number 1.0. *)
Theorem C3_chile_presidencial_stores_text :
  (forall text,
      ChilePartidos.map_vote_text_to_value (Some text)
      = match strip text with
        | [] => None
        | t => py_float (replace_comma t)
        end)
  /\ (forall text,
         PeruPartidos.map_vote_text_to_value (Some text)
         = match strip text with
           | [] => None
           | t => py_float (replace_comma t)
           end)
  /\ (forall text, PeruPres.map_vote_text_to_value text = mapVote text)
  /\ (forall cell_value,
         ChilePresidencial.parse_cell_combined cell_value
         = parse_cell_with ChilePresidencial.clean_text (option_map VText)
                           cell_value)
  /\ ChilePresidencial.parse_cell_combined
       (PScalar (SStr (u "A favor***Buena propuesta***http://x")))
     = Ok (Some (VText (u "A favor")), Some (u "Buena propuesta"),
           Some (u "http://x"))
  /\ ChilePresidencial.parse_cell_combined (PScalar (SStr (u "1")))
     = Ok (Some (VText (u "1")), None, None)
  /\ PeruPres.parse_cell_combined
       (PScalar (SStr (u "A favor***Buena propuesta***http://x")))
     = Ok (Some (VNum float_1_0), Some (u "Buena propuesta"),
           Some (u "http://x"))
  /\ PeruPres.parse_cell_combined (PScalar (SStr (u "1")))
     = Ok (Some (VNum float_1_0), None, None).
Proof.
  split; [|split; [|split; [exact peru_pres_map_vote_refines|]]].
  - intros text. unfold ChilePartidos.map_vote_text_to_value.
    destruct (strip text) as [|c t]; [reflexivity|].
    destruct (py_float (replace_comma (c :: t))); reflexivity.
  - intros text. unfold PeruPartidos.map_vote_text_to_value.
    destruct (strip text) as [|c t]; [reflexivity|].
    destruct (py_float (replace_comma (c :: t))); reflexivity.
  - split; [reflexivity|]. repeat split; vm_compute; reflexivity.
Qed.

(** When the parsed triple is all [None], the record takes the triple
    that the script enforces. *)
Lemma vote_record_enforced (v : variant) (topic_text : option str)
      (statement_text : str) (cell_value : pyval) :
  parse_cell_combined v cell_value = Ok (None, None, None) ->
  vote_record v topic_text statement_text cell_value
  = Ok {| tema := topic_text;
          question := statement_text;
          vote := fst (fst (enforced_defaults v));
          comment := snd (fst (enforced_defaults v));
          source := snd (enforced_defaults v) |}.
Proof.
  intros H. unfold vote_record, cell_record. rewrite H. simpl.
  destruct (enforced_defaults v) as [[a b] c]. reflexivity.
Qed.

Lemma vote_record_absent (v : variant) (topic_text : option str)
      (statement_text : str) (cell_value : pyval) :
  clean_text v cell_value = Ok None ->
  vote_record v topic_text statement_text cell_value
  = Ok {| tema := topic_text;
          question := statement_text;
          vote := Some (VNum float_0_5);
          comment := Some (u "No se encontró información pública sobre su posición.");
          source := None |}.
Proof.
  intros H. unfold vote_record, cell_record.
  rewrite parse_cell_combined_with, (parse_cell_with_absent _ _ _ H).
  reflexivity.
Qed.

(** In the two Chilean scripts a cell that reduces to nothing gets the
    record of an empty cell. *)
Lemma chile_reduced_cell_as_empty (v : variant) (topic_text : option str)
      (statement_text : str) (cell_value : pyval) :
  v = chile_partidos_2025 \/ v = chile_presidencial_2025 ->
  parse_cell_combined v cell_value = Ok (None, None, None) ->
  vote_record v topic_text statement_text cell_value
  = vote_record v topic_text statement_text (PScalar SNaN).
Proof.
  intros Hv H. rewrite (vote_record_enforced _ _ _ _ H).
  rewrite vote_record_absent by (destruct v; reflexivity).
  destruct Hv as [-> | ->]; reflexivity.
Qed.

(** C2. In the two Peruvian scripts a cell that reduces to nothing (here
    a cell holding the delimiter alone) gets the short comment
    ["No se encontró..."], while an empty cell gets the full placeholder:
    the two records differ.  In the two Chilean scripts they are the
    same. *)
Theorem C2_peru_reduced_cell_record :
  let reduced := PScalar (SStr (u "***")) in
  let empty := PScalar SNaN in
  let t := Some (u "Tema 1") in
  let s := u "Pregunta" in
  (forall v, parse_cell_combined v reduced = Ok (None, None, None))
  /\ (forall v, v = peru_partidos_2026 \/ v = peru_pres_2026 ->
        vote_record v t s reduced
        = Ok {| tema := t; question := s; vote := Some (VNum float_0_5);
                comment := Some (u "No se encontró...");
                source := None |}
        /\ vote_record v t s empty
           = Ok {| tema := t; question := s; vote := Some (VNum float_0_5);
                   comment :=
                     Some (u "No se encontró información pública sobre su posición.");
                   source := None |}
        /\ vote_record v t s reduced <> vote_record v t s empty)
  /\ (forall v, v = chile_partidos_2025 \/ v = chile_presidencial_2025 ->
        vote_record v t s reduced = vote_record v t s empty).
Proof.
  intros reduced empty t s. split; [intros v; destruct v; reflexivity|]. split.
  - intros v [-> | ->]; (split; [reflexivity|split; [reflexivity|]]);
      vm_compute; discriminate.
  - intros v [-> | ->]; reflexivity.
Qed.

(* ===================================================================== *)
(** * Candidate headers *)
(* ===================================================================== *)

Lemma re_match_lit (c : codepoint) (p : list item) (s : str) :
  re_match (Lit c :: p) s
  = match s with
    | x :: s' => if x =? c then re_match p s' else None
    | [] => None
    end.
Proof. reflexivity. Qed.

Lemma re_match_end (p : list item) (s : str) :
  re_match (EndAnchor :: p) s = if at_end s then re_match p s else None.
Proof. reflexivity. Qed.

Lemma re_match_greedy (k : char_class) (p : list item) (s : str) :
  re_match (Greedy k :: p) s
  = match s with
    | x :: s' =>
      if in_class k x then
        match re_match (Greedy k :: p) s' with
        | Some gs => Some gs
        | None => re_match p s
        end
      else re_match p s
    | [] => re_match p s
    end.
Proof. destruct s; reflexivity. Qed.

Lemma re_match_lazy (k : char_class) (p : list item) (s : str) :
  re_match (LazyGroup k :: p) s
  = match re_match p s with
    | Some gs => Some ([] :: gs)
    | None =>
      match s with
      | x :: s' =>
        if in_class k x then
          match re_match (LazyGroup k :: p) s' with
          | Some (g :: gs) => Some ((x :: g) :: gs)
          | _ => None
          end
        else None
      | [] => None
      end
    end.
Proof. destruct s; reflexivity. Qed.

(** A match needs every literal of the pattern in the text. *)
Lemma re_match_needs_literal (c : codepoint) (p : list item) :
  In (Lit c) p -> forall s gs, re_match p s = Some gs -> In c s.
Proof.
  induction p as [|it p IH]; intros Hin; [destruct Hin|].
  destruct it as [k|k|c'|].
  - destruct Hin as [Hin|Hin]; [discriminate|]. specialize (IH Hin).
    induction s as [|x s IHs]; intros gs; rewrite re_match_lazy.
    + destruct (re_match p []) eqn:E; [|discriminate]. intros _. eapply IH, E.
    + destruct (re_match p (x :: s)) eqn:E; [intros _; eapply IH, E|].
      destruct (in_class k x); [|discriminate].
      destruct (re_match (LazyGroup k :: p) s) as [[|g gs']|] eqn:E';
        try discriminate.
      intros _. right. eapply IHs, eq_refl.
  - destruct Hin as [Hin|Hin]; [discriminate|]. specialize (IH Hin).
    induction s as [|x s IHs]; intros gs; rewrite re_match_greedy.
    + apply IH.
    + destruct (in_class k x); [|apply IH].
      destruct (re_match (Greedy k :: p) s) eqn:E'; [|apply IH].
      intros _. right. eapply IHs, eq_refl.
  - intros s gs. rewrite re_match_lit. destruct s as [|x s]; [discriminate|].
    destruct (N.eqb_spec x c') as [->|Hne]; [|discriminate].
    intros H. destruct Hin as [Hin|Hin].
    + injection Hin as ->. now left.
    + right. eapply IH; eauto.
  - destruct Hin as [Hin|Hin]; [discriminate|]. intros s gs.
    rewrite re_match_end. destruct (at_end s); [|discriminate]. now apply IH.
Qed.

Section HeaderPattern.
Local Abbreviation closing := [Lit 41; Greedy Space; EndAnchor].
Local Abbreviation opening :=
  (Greedy Space :: Lit 40 :: LazyGroup Dot :: closing).

(** After a closing parenthesis inside the party nothing but white
    space may follow, which the final parenthesis is not. *)
Lemma no_end_before_paren (x : str) :
  re_match [Greedy Space; EndAnchor] (x ++ [41]) = None.
Proof.
  induction x as [|c x IH]; simpl app; rewrite re_match_greedy.
  - reflexivity.
  - cbv beta iota. rewrite IH, re_match_end.
    assert (Hend : at_end (c :: x ++ [41]) = false)
      by (destruct x; reflexivity).
    rewrite Hend. destruct (in_class Space c); reflexivity.
Qed.

Lemma party_group (party : str) :
  ~ In 10 party ->
  re_match (LazyGroup Dot :: closing) (party ++ [41]) = Some [party].
Proof.
  induction party as [|c party IH]; intros Hnl; simpl app;
    rewrite re_match_lazy.
  - reflexivity.
  - assert (Hc : re_match closing (c :: party ++ [41]) = None).
    { rewrite re_match_lit.
      destruct (c =? 41); [apply no_end_before_paren|reflexivity]. }
    rewrite Hc.
    assert (Hdot : in_class Dot c = true).
    { simpl. destruct (N.eqb_spec c 10) as [->|]; [|reflexivity].
      exfalso. apply Hnl. now left. }
    rewrite Hdot, IH; [reflexivity|].
    intros H. apply Hnl. now right.
Qed.

Lemma blanks_then_paren (w rest : str) (gs : list str) :
  forallb isspace w = true ->
  re_match (LazyGroup Dot :: closing) rest = Some gs ->
  re_match opening (w ++ 40 :: rest) = Some gs.
Proof.
  intros Hw Hrest.
  induction w as [|c w IH]; simpl app; rewrite re_match_greedy.
  - cbn [in_class]. change (isspace 40) with false. cbv beta iota.
    rewrite re_match_lit. exact Hrest.
  - simpl in Hw. apply andb_true_iff in Hw as [Hc Hw].
    cbn [in_class]. rewrite Hc, (IH Hw). reflexivity.
Qed.

Lemma no_paren_in_name (x rest : str) :
  forallb isspace x = false -> ~ In 40 x ->
  re_match opening (x ++ rest) = None.
Proof.
  induction x as [|c x IH]; intros Hx Hp; [discriminate|].
  simpl app. rewrite re_match_greedy. cbn [in_class].
  assert (Hlit : re_match (Lit 40 :: LazyGroup Dot :: closing)
                          (c :: x ++ rest) = None).
  { rewrite re_match_lit. destruct (N.eqb_spec c 40) as [->|]; [|reflexivity].
    exfalso. apply Hp. now left. }
  rewrite Hlit. destruct (isspace c) eqn:Hc; [|reflexivity].
  rewrite IH; [reflexivity| |].
  - simpl in Hx. now rewrite Hc in Hx.
  - intros H. apply Hp. now right.
Qed.

Lemma rstrip_cons (c : codepoint) (x : str) :
  rstrip (c :: x)
  = match rstrip x with
    | [] => if isspace c then [] else [c]
    | _ :: _ => c :: rstrip x
    end.
Proof. reflexivity. Qed.

Lemma rstrip_fixed_tail (c : codepoint) (x : str) :
  rstrip (c :: x) = c :: x -> rstrip x = x.
Proof.
  rewrite rstrip_cons. destruct (rstrip x) as [|y r] eqn:E.
  - destruct (isspace c); [discriminate|]. congruence.
  - congruence.
Qed.

Lemma name_group (n rest : str) (gs : list str) :
  rstrip n = n -> ~ In 40 n -> ~ In 10 n ->
  re_match opening rest = Some gs ->
  re_match (LazyGroup Dot :: opening) (n ++ rest) = Some (n :: gs).
Proof.
  intros Hn Hp Hnl Hrest.
  induction n as [|c n IH]; simpl app; rewrite re_match_lazy.
  - now rewrite Hrest.
  - assert (Hx : forallb isspace (c :: n) = false).
    { destruct (forallb isspace (c :: n)) eqn:E; [|reflexivity].
      apply rstrip_nil in E. congruence. }
    change (c :: n ++ rest) with ((c :: n) ++ rest) at 1.
    rewrite (no_paren_in_name _ rest Hx Hp).
    assert (Hdot : in_class Dot c = true).
    { simpl. destruct (N.eqb_spec c 10) as [->|]; [|reflexivity].
      exfalso. apply Hnl. now left. }
    rewrite Hdot, IH; [reflexivity| | |].
    + now apply rstrip_fixed_tail in Hn.
    + intros H. apply Hp. now right.
    + intros H. apply Hnl. now right.
Qed.

Lemma header_pattern_match (n w party : str) :
  rstrip n = n -> ~ In 40 n -> ~ In 10 n ->
  forallb isspace w = true -> ~ In 10 party ->
  re_match header_pattern (n ++ w ++ 40 :: party ++ [41])
  = Some [n; party].
Proof.
  intros Hn Hp Hnl Hw Hparty.
  apply (name_group n (w ++ 40 :: party ++ [41]) [party] Hn Hp Hnl).
  apply blanks_then_paren; [exact Hw|]. now apply party_group.
Qed.
End HeaderPattern.

Lemma lstrip_app (x r : str) (c : codepoint) :
  isspace c = false -> lstrip (x ++ c :: r) = lstrip x ++ c :: r.
Proof.
  intros Hc. induction x as [|a x IH]; simpl.
  - now rewrite Hc.
  - destruct (isspace a); [exact IH|reflexivity].
Qed.

Lemma rstrip_snoc (x : str) (c : codepoint) :
  isspace c = false -> rstrip (x ++ [c]) = x ++ [c].
Proof.
  intros Hc. induction x as [|a x IH]; simpl app; rewrite rstrip_cons.
  - simpl. now rewrite Hc.
  - rewrite IH. destruct (x ++ [c]) eqn:E; [|reflexivity].
    now destruct x.
Qed.

Lemma rstrip_decompose (x : str) :
  exists w, x = rstrip x ++ w /\ forallb isspace w = true.
Proof.
  induction x as [|c x [w [Hx Hw]]]; [now exists []|].
  rewrite rstrip_cons. destruct (rstrip x) as [|y r] eqn:E.
  - simpl in Hx. subst w. destruct (isspace c) eqn:Hc.
    + exists (c :: x). simpl. now rewrite Hc, Hw.
    + exists x. now split.
  - exists w. split; [|exact Hw]. simpl in *. congruence.
Qed.

Lemma rstrip_idem (x : str) : rstrip (rstrip x) = rstrip x.
Proof.
  induction x as [|c x IH]; [reflexivity|].
  rewrite rstrip_cons. destruct (rstrip x) as [|y r] eqn:E.
  - destruct (isspace c) eqn:Hc; [reflexivity|]. simpl. now rewrite Hc.
  - rewrite rstrip_cons, IH. reflexivity.
Qed.

Lemma In_lstrip (c : codepoint) (s : str) : In c (lstrip s) -> In c s.
Proof.
  induction s as [|a s IH]; simpl; [tauto|].
  destruct (isspace a); [auto|]. simpl. tauto.
Qed.

Lemma In_rstrip (c : codepoint) (s : str) : In c (rstrip s) -> In c s.
Proof.
  induction s as [|a s IH]; [tauto|].
  rewrite rstrip_cons. destruct (rstrip s) as [|y r].
  - destruct (isspace a); simpl; tauto.
  - simpl in *. tauto.
Qed.

Lemma In_strip (c : codepoint) (s : str) : In c (strip s) -> In c s.
Proof. intros H. now apply In_lstrip, In_rstrip. Qed.

Lemma rstrip_head (c : codepoint) (x : str) :
  isspace c = false -> exists r, rstrip (c :: x) = c :: r.
Proof.
  intros Hc. rewrite rstrip_cons. destruct (rstrip x); rewrite ?Hc; eauto.
Qed.

Lemma strip_idem (s : str) : strip (strip s) = strip s.
Proof.
  unfold strip. pose proof (lstrip_head s) as Hh.
  destruct (lstrip s) as [|c r]; [reflexivity|].
  destruct (rstrip_head c r Hh) as [r' Hr].
  rewrite Hr. simpl lstrip. rewrite Hh, <- Hr.
  apply rstrip_idem.
Qed.

(** The stripped header of a name followed by a parenthesized party. *)
Lemma strip_header (name party : str) :
  exists w,
    forallb isspace w = true
    /\ strip (name ++ 40 :: party ++ [41])
       = strip name ++ w ++ 40 :: party ++ [41].
Proof.
  destruct (rstrip_decompose (lstrip name)) as [w [Hx Hw]].
  exists w. split; [exact Hw|].
  unfold strip at 1. rewrite lstrip_app by reflexivity.
  change (lstrip name ++ 40 :: party ++ [41])
    with (lstrip name ++ (40 :: party) ++ [41]).
  rewrite app_assoc, rstrip_snoc by reflexivity.
  rewrite Hx at 1. unfold strip. now rewrite <- !app_assoc.
Qed.

(** C9. In the two candidate scripts a header made of a name (without
    opening parenthesis, and without line feed once trimmed) followed by
    a parenthesized party (without line feed) is decomposed into the
    trimmed name and the trimmed party; a header without parentheses
    gives the whole trimmed header as the name and no party.
    ["Juan Pérez (Partido X)"] gives ["Juan Pérez"] and ["Partido X"];
    ["Juan Pérez"] gives ["Juan Pérez"] and no party. *)
Theorem C9_candidate_header :
  (forall name party,
      ~ In 40 name -> ~ In 10 (strip name) -> ~ In 10 party ->
      PeruPres.parse_candidate_header
        (SStr (name ++ u "(" ++ party ++ u ")"))
      = (Some (strip name), Some (strip party)))
  /\ (forall header_str,
         ~ In 40 header_str \/ ~ In 41 header_str ->
         PeruPres.parse_candidate_header (SStr header_str)
         = (Some (strip header_str), None))
  /\ (forall header_str,
         ChilePresidencial.parse_candidate_header header_str
         = PeruPres.parse_candidate_header header_str)
  /\ PeruPres.parse_candidate_header (SStr (u "Juan Pérez (Partido X)"))
     = (Some (u "Juan Pérez"), Some (u "Partido X"))
  /\ PeruPres.parse_candidate_header (SStr (u "Juan Pérez"))
     = (Some (u "Juan Pérez"), None).
Proof.
  split; [|split; [|split; [reflexivity|split; vm_compute; reflexivity]]].
  - intros name party Hp Hnl Hparty.
    change (u "(" ++ party ++ u ")") with (40 :: party ++ [41]).
    unfold PeruPres.parse_candidate_header. cbn [py_str].
    destruct (strip_header name party) as [w [Hw Hs]].
    unfold str, codepoint in *. rewrite Hs, header_pattern_match.
    + now rewrite strip_idem.
    + apply rstrip_idem.
    + intros H. now apply Hp, In_strip.
    + exact Hnl.
    + exact Hw.
    + exact Hparty.
  - intros header_str Hno.
    unfold PeruPres.parse_candidate_header. cbn [py_str].
    destruct (re_match header_pattern (strip header_str)) as [gs|] eqn:E;
      [|reflexivity].
    exfalso. destruct Hno as [Hno|Hno]; apply Hno, In_strip.
    + apply (re_match_needs_literal 40 header_pattern) with (gs := gs);
        [simpl; tauto|exact E].
    + apply (re_match_needs_literal 41 header_pattern) with (gs := gs);
        [simpl; tauto|exact E].
Qed.

(** A party that holds parentheses itself, with a line break before it,
    and a header with a closing parenthesis only. *)
Lemma C9_candidate_header_witness :
  PeruPres.parse_candidate_header
    (SStr ([32; 75; 101; 105; 107; 111; 32; 10] ++ u "("
           ++ u " Fuerza Popular (FP) " ++ u ")"))
  = (Some (strip [32; 75; 101; 105; 107; 111; 32; 10]),
     Some (strip (u " Fuerza Popular (FP) ")))
  /\ PeruPres.parse_candidate_header (SStr (u " Sin partido) "))
     = (Some (strip (u " Sin partido) ")), None).
Proof.
  split.
  - apply (proj1 C9_candidate_header);
      vm_compute; intuition discriminate.
  - apply (proj1 (proj2 C9_candidate_header)).
    left. vm_compute. intuition discriminate.
Defined.

(** C9, counterexample.  A header is not cut at its trailing
    parenthesized suffix but at its first opening parenthesis, and not at all when a line feed stands in
    the name: ["Jose (Pepe) Mujica (Frente Amplio)"] gives the name
    ["Jose"] and the party ["Pepe) Mujica (Frente Amplio"], where the
    suffix is ["(Frente Amplio)"]; a name in two lines before
    ["(Partido X)"] gives the whole header as the name and no party.
    Both candidate scripts. *)
Lemma C9_candidate_header_counterexample :
  let two_pairs := SStr (u "Jose (Pepe) Mujica (Frente Amplio)") in
  let two_lines := SStr (u "Juan" ++ [10] ++ u "Perez (Partido X)") in
  PeruPres.parse_candidate_header two_pairs
  = (Some (u "Jose"), Some (u "Pepe) Mujica (Frente Amplio"))
  /\ PeruPres.parse_candidate_header two_pairs
     <> (Some (u "Jose (Pepe) Mujica"), Some (u "Frente Amplio"))
  /\ PeruPres.parse_candidate_header two_lines
     = (Some (u "Juan" ++ [10] ++ u "Perez (Partido X)"), None)
  /\ PeruPres.parse_candidate_header two_lines
     <> (Some (u "Juan" ++ [10] ++ u "Perez"), Some (u "Partido X"))
  /\ ChilePresidencial.parse_candidate_header two_pairs
     = (Some (u "Jose"), Some (u "Pepe) Mujica (Frente Amplio"))
  /\ ChilePresidencial.parse_candidate_header two_lines
     = (Some (u "Juan" ++ [10] ++ u "Perez (Partido X)"), None).
Proof.
  intros two_pairs two_lines.
  repeat split; try (vm_compute; reflexivity); vm_compute; discriminate.
Qed.

(** The period of the pattern stops at a line feed: with one inside the
    name or the party the pattern does not match, and the header comes
    back whole. *)
Lemma line_feed_in_party :
  PeruPres.parse_candidate_header
    (SStr (u "Ana Ruiz (Partido" ++ [10] ++ u "X)"))
  = (Some (u "Ana Ruiz (Partido" ++ [10] ++ u "X)"), None).
Proof. vm_compute. reflexivity. Qed.

(* ===================================================================== *)
(** * Facts on dictionaries *)
(* ===================================================================== *)

Section DictFacts.
Context {K V : Type}.
Variable eqb : K -> K -> bool.
Hypothesis eqb_eq : forall a b, eqb a b = true <-> a = b.

Lemma eqb_refl (a : K) : eqb a a = true.
Proof. now apply eqb_eq. Qed.

Lemma eqb_neq (a b : K) : a <> b -> eqb a b = false.
Proof.
  intros H. destruct (eqb a b) eqn:E; [|reflexivity].
  apply eqb_eq in E. contradiction.
Qed.

Lemma dict_get_set_same (k : K) (v : V) (d : dict K V) :
  dict_get eqb k (dict_set eqb k v d) = Some v.
Proof.
  induction d as [|[k' v'] d IH]; simpl.
  - now rewrite eqb_refl.
  - destruct (eqb k' k) eqn:E; simpl; rewrite E; [reflexivity|exact IH].
Qed.

Lemma dict_get_set_other (k k' : K) (v : V) (d : dict K V) :
  k <> k' -> dict_get eqb k (dict_set eqb k' v d) = dict_get eqb k d.
Proof.
  intros Hne. induction d as [|[k0 v0] d IH]; simpl.
  - rewrite eqb_neq; [reflexivity|congruence].
  - destruct (eqb k0 k') eqn:E; simpl; [|now rewrite IH].
    apply eqb_eq in E. subst k0. rewrite eqb_neq; [reflexivity|congruence].
Qed.

Lemma keys_dict_set_in (k : K) (v : V) (d : dict K V) :
  In k (keys d) -> keys (dict_set eqb k v d) = keys d.
Proof.
  induction d as [|[k' v'] d IH]; simpl; [tauto|].
  intros Hin. destruct (eqb k' k) eqn:E; simpl; [reflexivity|].
  f_equal. apply IH. destruct Hin as [Hin|Hin]; [|exact Hin].
  subst. now rewrite eqb_refl in E.
Qed.

Lemma keys_dict_set_new (k : K) (v : V) (d : dict K V) :
  ~ In k (keys d) -> keys (dict_set eqb k v d) = keys d ++ [k].
Proof.
  induction d as [|[k' v'] d IH]; simpl; [reflexivity|].
  intros Hin. destruct (eqb k' k) eqn:E; simpl.
  - apply eqb_eq in E. tauto.
  - f_equal. apply IH. tauto.
Qed.

Lemma In_keys_dict_set (k k' : K) (v : V) (d : dict K V) :
  In k (keys (dict_set eqb k' v d)) <-> k = k' \/ In k (keys d).
Proof.
  induction d as [|[k0 v0] d IH]; simpl.
  - intuition.
  - destruct (eqb k0 k') eqn:E; simpl.
    + apply eqb_eq in E. subst. intuition.
    + rewrite IH. intuition.
Qed.

Lemma NoDup_keys_dict_set (k : K) (v : V) (d : dict K V) :
  NoDup (keys d) -> NoDup (keys (dict_set eqb k v d)).
Proof.
  induction d as [|[k' v'] d IH]; simpl; intros Hnd.
  - constructor; [tauto|constructor].
  - inversion Hnd as [|? ? Hni Hnd']; subst.
    destruct (eqb k' k) eqn:E; simpl; [now constructor|].
    constructor; [|now apply IH].
    rewrite In_keys_dict_set. intros [->|Hin]; [|contradiction].
    now rewrite eqb_refl in E.
Qed.

Lemma dict_get_In (k : K) (v : V) (d : dict K V) :
  dict_get eqb k d = Some v -> In (k, v) d.
Proof.
  induction d as [|[k' v'] d IH]; simpl; [discriminate|].
  destruct (eqb k' k) eqn:E; [|auto].
  apply eqb_eq in E. intros H. left. congruence.
Qed.

Lemma In_dict_get (k : K) (v : V) (d : dict K V) :
  NoDup (keys d) -> In (k, v) d -> dict_get eqb k d = Some v.
Proof.
  induction d as [|[k' v'] d IH]; simpl; [tauto|].
  intros Hnd Hin. inversion Hnd as [|? ? Hni Hnd']; subst.
  destruct Hin as [Hin|Hin].
  - injection Hin as -> ->. now rewrite eqb_refl.
  - destruct (eqb k' k) eqn:E; [|now apply IH].
    apply eqb_eq in E. subst. exfalso. apply Hni.
    change k with (fst (k, v)). now apply in_map.
Qed.

Lemma dict_get_None (k : K) (d : dict K V) :
  dict_get eqb k d = None <-> ~ In k (keys d).
Proof.
  induction d as [|[k' v'] d IH]; simpl; [tauto|].
  destruct (eqb k' k) eqn:E.
  - apply eqb_eq in E. split; [discriminate|tauto].
  - rewrite IH. split; [|tauto]. intros H [->|Hin]; [|tauto].
    now rewrite eqb_refl in E.
Qed.

(** With distinct keys, setting a present key rewrites its entry. *)
Lemma dict_set_map (k : K) (v : V) (d : dict K V) :
  NoDup (keys d) -> In k (keys d) ->
  dict_set eqb k v d
  = map (fun kv => if eqb (fst kv) k then (fst kv, v) else kv) d.
Proof.
  induction d as [|[k' v'] d IH]; simpl; [tauto|].
  intros Hnd Hin. inversion Hnd as [|? ? Hni Hnd']; subst.
  destruct (eqb k' k) eqn:E.
  - f_equal. apply eqb_eq in E. subst k'.
    clear IH Hin Hnd. induction d as [|[k0 v0] d IH]; [reflexivity|].
    simpl in *. rewrite eqb_neq by tauto.
    f_equal. apply IH; [tauto|]. now inversion Hnd'.
  - f_equal. apply IH; [exact Hnd'|]. destruct Hin as [->|Hin]; [|exact Hin].
    now rewrite eqb_refl in E.
Qed.

Lemma dict_set_idem (k : K) (v : V) (d : dict K V) :
  dict_set eqb k v (dict_set eqb k v d) = dict_set eqb k v d.
Proof.
  induction d as [|[k' v'] d IH]; simpl.
  - now rewrite eqb_refl.
  - destruct (eqb k' k) eqn:E; simpl; rewrite E; [reflexivity|now rewrite IH].
Qed.

(** With distinct keys there is one entry under a key that is present. *)
Lemma single_entry (k : K) (d : dict K V) :
  NoDup (keys d) -> In k (keys d) ->
  List.length (filter (fun kv => eqb (fst kv) k) d) = 1%nat.
Proof.
  induction d as [|[k' v'] d IH]; simpl; [tauto|].
  intros Hnd Hin. inversion Hnd as [|? ? Hni Hnd']; subst.
  destruct (eqb k' k) eqn:E.
  - simpl. f_equal. apply eqb_eq in E. subst k'.
    clear IH Hnd Hin. induction d as [|[k0 v0] d IH]; [reflexivity|].
    simpl in *. rewrite eqb_neq by tauto.
    apply IH; [tauto|]. now inversion Hnd'.
  - apply IH; [exact Hnd'|]. destruct Hin as [->|Hin]; [|exact Hin].
    now rewrite eqb_refl in E.
Qed.

Lemma dict_set_new (k : K) (v : V) (d : dict K V) :
  ~ In k (keys d) -> dict_set eqb k v d = d ++ [(k, v)].
Proof.
  induction d as [|[k' v'] d IH]; simpl; [reflexivity|].
  intros Hni. rewrite eqb_neq by tauto. f_equal. apply IH. tauto.
Qed.

Lemma In_dict_set (k k' : K) (v v' : V) (d : dict K V) :
  In (k', v') (dict_set eqb k v d) -> (k' = k /\ v' = v) \/ In (k', v') d.
Proof.
  induction d as [|[k0 v0] d IH]; simpl.
  - intros [H|[]]. left. split; congruence.
  - destruct (eqb k0 k) eqn:E; simpl.
    + apply eqb_eq in E. subst. intros [H|H]; [|tauto].
      left. split; congruence.
    + intros [H|H]; [tauto|]. apply IH in H. tauto.
Qed.
End DictFacts.

(* ===================================================================== *)
(** * The reshaping loop, entity by entity *)
(* ===================================================================== *)

Lemma with_votes_votes (e : entity) : with_votes e (votes e) = e.
Proof. now destruct e. Qed.

Lemma well_keyed_map (g : scalar * entity -> dict str VoteRecord)
      (info : dict scalar entity) :
  well_keyed info ->
  well_keyed (map (fun kv => (fst kv, with_votes (snd kv) (g kv))) info)
  /\ keys (map (fun kv => (fst kv, with_votes (snd kv) (g kv))) info)
     = keys info.
Proof.
  intros [Hnd Hh].
  assert (Hk : keys (map (fun kv => (fst kv, with_votes (snd kv) (g kv))) info)
               = keys info).
  { unfold keys. rewrite map_map. reflexivity. }
  split; [|exact Hk]. split; [now rewrite Hk|].
  intros k e Hin. apply in_map_iff in Hin as [[k' e'] [Heq Hin]].
  injection Heq as <- <-. simpl. now apply Hh.
Qed.

Section LoopFacts.
Variable clean : pyval -> result (option str).
Variable parse : pyval -> result triple.
Variable enforced : triple.
Variable columns : list scalar.

Local Abbreviation cell := (cell_record parse enforced).
Local Abbreviation columns_loop := (each_column parse enforced columns).
Local Abbreviation rows_loop := (each_row clean parse enforced columns).
Local Abbreviation question := (row_question clean columns).
Local Abbreviation write := (write_cell parse enforced columns).
Local Abbreviation after := (votes_after clean parse enforced columns).

Lemma store_spec (column : scalar) (qid : str) (rec : VoteRecord)
      (info info' : dict scalar entity) :
  well_keyed info ->
  store column qid rec info = Ok info' ->
  In column (keys info)
  /\ info'
     = map (fun kv =>
              (fst kv,
               if scalar_eqb (fst kv) column
               then with_votes (snd kv) (dict_set str_eqb qid rec (votes (snd kv)))
               else snd kv)) info.
Proof.
  intros [Hnd Hh]. unfold store.
  destruct (dict_get scalar_eqb column info) as [e|] eqn:G; [|discriminate].
  intros H. injection H as <-.
  pose proof (dict_get_In scalar_eqb scalar_eqb_eq _ _ _ G) as Hin.
  assert (Hk : In column (keys info)).
  { change column with (fst (column, e)). now apply in_map. }
  split; [exact Hk|].
  rewrite (dict_set_map scalar_eqb scalar_eqb_eq _ _ _ Hnd Hk).
  apply map_ext_in. intros [k e0] Hin0. simpl.
  destruct (scalar_eqb k column) eqn:E; [|reflexivity].
  apply scalar_eqb_eq in E. subst k.
  pose proof (In_dict_get scalar_eqb scalar_eqb_eq _ _ _ Hnd Hin0) as G0.
  rewrite G in G0. injection G0 as <-. reflexivity.
Qed.

Lemma each_column_spec (r : row) (t : option str) (s : str)
      (todo : list scalar) :
  forall info info',
    well_keyed info ->
    columns_loop r t s todo info = Ok info' ->
    info'
    = map (fun kv =>
             (fst kv,
              with_votes (snd kv)
                (if existsb (scalar_eqb (fst kv)) todo
                 then write r t s (fst kv) (votes (snd kv))
                 else votes (snd kv)))) info
    /\ forall c, In c todo ->
                 In c (keys info)
                 /\ exists rec, cell t s (at_ columns r c) = Ok rec.
Proof.
  induction todo as [|c todo IH]; intros info info' Hwf H.
  - simpl in H. injection H as <-. split; [|intros c []].
    rewrite <- (map_id info) at 1. apply map_ext. intros [k e]. simpl.
    now rewrite with_votes_votes.
  - simpl in H.
    destruct (cell t s (at_ columns r c)) as [rec|] eqn:Hc; [|discriminate].
    simpl in H.
    destruct (store c (question_identifier t s) rec info) as [info1|] eqn:Hs;
      [|discriminate].
    simpl in H. destruct (store_spec _ _ _ _ _ Hwf Hs) as [Hk Hinfo1].
    assert (Hwf1 : well_keyed info1 /\ keys info1 = keys info).
    { rewrite Hinfo1.
      apply (well_keyed_map
               (fun kv => if scalar_eqb (fst kv) c
                          then dict_set str_eqb (question_identifier t s) rec
                                        (votes (snd kv))
                          else votes (snd kv))) in Hwf.
      destruct Hwf as [Hwf Hkeys].
      erewrite map_ext; [split; [exact Hwf|exact Hkeys]|].
      intros [k e]. simpl. destruct (scalar_eqb k c); [reflexivity|].
      now rewrite with_votes_votes. }
    destruct Hwf1 as [Hwf1 Hkeys1].
    destruct (IH info1 info' Hwf1 H) as [Hinfo' Htodo]. split.
    + rewrite Hinfo', Hinfo1, map_map. apply map_ext. intros [k e]. simpl.
      destruct (scalar_eqb k c) eqn:E; simpl.
      * apply scalar_eqb_eq in E. subst k. unfold write_cell. rewrite Hc.
        destruct (existsb (scalar_eqb c) todo); simpl;
          [now rewrite (dict_set_idem str_eqb str_eqb_eq)|reflexivity].
      * destruct (existsb (scalar_eqb k) todo); destruct e; reflexivity.
    + intros c' [<-|Hin].
      * split; [exact Hk|eauto].
      * destruct (Htodo c' Hin) as [Hk' Hrec]. rewrite Hkeys1 in Hk'. tauto.
Qed.
Lemma each_row_cons (entity_columns : list scalar) (r : row)
      (rows : list row) (info : dict scalar entity) :
  rows_loop entity_columns (r :: rows) info
  = match question r with
    | Raise e => Raise e
    | Ok None => rows_loop entity_columns rows info
    | Ok (Some (t, s)) =>
      info' <- columns_loop r t s entity_columns info ;;
      rows_loop entity_columns rows info'
    end.
Proof.
  unfold row_question. simpl.
  destruct (clean (at_ columns r Tema)) as [t|]; [|reflexivity]. simpl.
  destruct (clean (at_ columns r Statement)) as [[s|]|]; reflexivity.
Qed.

Lemma each_row_spec (entity_columns : list scalar) (rows : list row) :
  forall info info',
    well_keyed info ->
    (forall k, In k (keys info) -> In k entity_columns) ->
    rows_loop entity_columns rows info = Ok info' ->
    info'
    = map (fun kv =>
             (fst kv,
              with_votes (snd kv) (after rows (fst kv) (votes (snd kv)))))
          info
    /\ (forall r, In r rows -> exists q, question r = Ok q)
    /\ (forall r t s c,
           In r rows -> question r = Ok (Some (t, s)) ->
           In c entity_columns ->
           exists rec, cell t s (at_ columns r c) = Ok rec).
Proof.
  induction rows as [|r rows IH]; intros info info' Hwf Hsub H.
  - simpl in H. injection H as <-. split; [|split; [intros r []|intros r t s c []]].
    rewrite <- (map_id info) at 1. apply map_ext. intros [k e]. simpl.
    now rewrite with_votes_votes.
  - rewrite each_row_cons in H.
    destruct (question r) as [[[t s]|]|] eqn:Hq; [| |discriminate].
    + destruct (columns_loop r t s entity_columns info) as [info1|] eqn:Hc;
        [|discriminate].
      simpl in H.
      destruct (each_column_spec r t s entity_columns info info1 Hwf Hc)
        as [Hinfo1 Hcells].
      destruct (well_keyed_map
                  (fun kv => if existsb (scalar_eqb (fst kv)) entity_columns
                             then write r t s (fst kv) (votes (snd kv))
                             else votes (snd kv)) info Hwf) as [Hwf1 Hkeys1].
      rewrite <- Hinfo1 in Hwf1, Hkeys1.
      assert (Hsub1 : forall k, In k (keys info1) -> In k entity_columns)
        by (rewrite Hkeys1; exact Hsub).
      destruct (IH info1 info' Hwf1 Hsub1 H) as [Hinfo' [Hrows Hrecs]].
      split; [|split].
      * rewrite Hinfo', Hinfo1, map_map. apply map_ext_in.
        intros [k e] Hin. simpl. rewrite Hq.
        assert (Hk : existsb (scalar_eqb k) entity_columns = true).
        { apply existsb_exists. exists k. split; [|apply scalar_eqb_refl].
          apply Hsub. change k with (fst (k, e)). now apply in_map. }
        now rewrite Hk.
      * intros r' [<-|Hin]; [eauto|now apply Hrows].
      * intros r' t' s' c [<-|Hin] Hq' Hc'.
        -- rewrite Hq in Hq'. injection Hq' as <- <-. now apply Hcells.
        -- now apply (Hrecs r' t' s' c).
    + destruct (IH info info' Hwf Hsub H) as [Hinfo' [Hrows Hrecs]].
      split; [|split].
      * rewrite Hinfo'. apply map_ext. intros [k e]. simpl. now rewrite Hq.
      * intros r' [<-|Hin]; [eauto|now apply Hrows].
      * intros r' t' s' c [<-|Hin] Hq' Hc'; [congruence|].
        now apply (Hrecs r' t' s' c).
Qed.
End LoopFacts.

Section DocumentFacts.
Variable describe_column : scalar -> scalar * option scalar.

Lemma init_info_acc (entity_columns : list scalar) :
  forall acc,
    well_keyed acc ->
    (forall k e, In (k, e) acc -> e = new_entity describe_column k) ->
    let info :=
        fold_left
          (fun info column =>
             dict_set scalar_eqb column (new_entity describe_column column) info)
          entity_columns acc in
    well_keyed info
    /\ (forall k e, In (k, e) info -> e = new_entity describe_column k)
    /\ (forall k, In k (keys info) <-> In k (keys acc) \/ In k entity_columns).
Proof.
  induction entity_columns as [|c cs IH]; intros acc Hwf Hnew; simpl.
  - split; [exact Hwf|]. split; [exact Hnew|]. tauto.
  - set (acc' := dict_set scalar_eqb c (new_entity describe_column c) acc).
    assert (Hwf' : well_keyed acc').
    { destruct Hwf as [Hnd Hh]. split.
      - now apply NoDup_keys_dict_set; [apply scalar_eqb_eq|].
      - intros k e Hin. apply In_dict_set in Hin; [|apply scalar_eqb_eq].
        destruct Hin as [[-> ->]|Hin]; [|now apply Hh].
        unfold new_entity. now destruct (describe_column c). }
    assert (Hnew' : forall k e, In (k, e) acc' -> e = new_entity describe_column k).
    { intros k e Hin. apply In_dict_set in Hin; [|apply scalar_eqb_eq].
      destruct Hin as [[-> ->]|Hin]; [reflexivity|now apply Hnew]. }
    destruct (IH acc' Hwf' Hnew') as [H1 [H2 H3]].
    split; [exact H1|]. split; [exact H2|].
    intros k. rewrite H3. unfold acc'.
    rewrite (In_keys_dict_set scalar_eqb scalar_eqb_eq). intuition.
Qed.

Lemma init_info_spec (entity_columns : list scalar) :
  well_keyed (init_info describe_column entity_columns)
  /\ (forall k e, In (k, e) (init_info describe_column entity_columns) ->
                  e = new_entity describe_column k)
  /\ (forall k, In k (keys (init_info describe_column entity_columns))
                <-> In k entity_columns).
Proof.
  destruct (init_info_acc entity_columns []) as [H1 [H2 H3]].
  - split; [constructor|intros k e []].
  - intros k e [].
  - split; [exact H1|]. split; [exact H2|].
    intros k. rewrite (H3 k). simpl. tauto.
Qed.

Lemma combined_output_acc (info : dict scalar entity) :
  forall acc,
    NoDup (keys acc ++ keys info) ->
    (forall k e, In (k, e) info -> header e = k) ->
    fold_left
      (fun out kv => dict_set scalar_eqb (header (snd kv)) (entry_of (snd kv)) out)
      info acc
    = acc ++ map (fun kv => (fst kv, entry_of (snd kv))) info.
Proof.
  induction info as [|[k e] info IH]; intros acc Hnd Hh; simpl.
  - now rewrite app_nil_r.
  - assert (Hk : header e = k) by (apply Hh; now left).
    rewrite Hk. rewrite (dict_set_new scalar_eqb scalar_eqb_eq).
    + rewrite IH.
      * now rewrite <- app_assoc.
      * unfold keys in *. rewrite map_app, <- app_assoc. exact Hnd.
      * intros k' e' Hin. apply Hh. now right.
    + intros Hin. simpl in Hnd. apply NoDup_remove_2 in Hnd.
      apply Hnd, in_or_app. now left.
Qed.

Lemma combined_output_spec (key : str) (info : dict scalar entity) :
  well_keyed info ->
  entities (combined_output key info)
  = map (fun kv => (fst kv, entry_of (snd kv))) info.
Proof.
  intros [Hnd Hh]. unfold combined_output. simpl.
  exact (combined_output_acc info [] Hnd Hh).
Qed.
End DocumentFacts.

(** The document of a run that succeeds: one entry per distinct entity
    header, with the votes that the rows write for it in row order; every
    row has a question or is skipped, and every cell gives a record. *)
Lemma reshape_spec (hd_rows : table -> table)
      (clean : pyval -> result (option str))
      (parse : pyval -> result triple) (enforced : triple)
      (desc : scalar -> scalar * option scalar) (key : str)
      (t : table) (doc : document) :
  reshape hd_rows clean parse enforced desc key t = Ok doc ->
  exists columns data_frame headers,
    hd_rows t = columns :: data_frame
    /\ has_column columns Statement = true
    /\ has_column columns Tema = true
    /\ NoDup headers
    /\ (forall c, In c headers <-> In c (filter is_entity_column columns))
    /\ category doc = key
    /\ entities doc
       = map (fun c =>
                (c, {| entry_name := fst (desc c);
                       entry_party := snd (desc c);
                       entry_votes :=
                         votes_after clean parse enforced columns data_frame c [] |}))
             headers
    /\ (forall r, In r data_frame -> exists q, row_question clean columns r = Ok q)
    /\ (forall r topic statement c,
           In r data_frame ->
           row_question clean columns r = Ok (Some (topic, statement)) ->
           In c headers ->
           exists rec,
             cell_record parse enforced topic statement (at_ columns r c)
             = Ok rec).
Proof.
  unfold reshape. destruct (hd_rows t) as [|columns data_frame]; [discriminate|].
  destruct (has_column columns Statement) eqn:Hs; [|discriminate].
  destruct (has_column columns Tema) eqn:Ht; [|discriminate]. simpl.
  set (entity_columns := filter is_entity_column columns).
  destruct (init_info_spec desc entity_columns) as [Hwf [Hnew Hkeys]].
  destruct (each_row clean parse enforced columns entity_columns data_frame
                     (init_info desc entity_columns)) as [info|] eqn:Hrows;
    [|discriminate].
  simpl. intros H. injection H as <-.
  destruct (each_row_spec clean parse enforced columns entity_columns data_frame
                          _ _ Hwf (fun k => proj1 (Hkeys k)) Hrows)
    as [Hinfo [Hq Hrec]].
  exists columns, data_frame, (keys (init_info desc entity_columns)).
  split; [reflexivity|]. split; [exact Hs|]. split; [exact Ht|].
  split; [exact (proj1 Hwf)|]. split; [exact Hkeys|]. split; [reflexivity|].
  split; [|split; [exact Hq|]].
  - rewrite combined_output_spec.
    + rewrite Hinfo. unfold keys. rewrite !map_map. apply map_ext_in.
      intros [k e] Hin. simpl. rewrite (Hnew k e Hin).
      unfold entry_of, new_entity. now destruct (desc k).
    + rewrite Hinfo.
      apply (well_keyed_map
               (fun kv => votes_after clean parse enforced columns data_frame
                                      (fst kv) (votes (snd kv)))), Hwf.
  - intros r topic statement c Hr Hquest Hc.
    apply (Hrec r topic statement c Hr Hquest). now apply Hkeys.
Qed.

Section VotesFacts.
Variable clean : pyval -> result (option str).
Variable parse : pyval -> result triple.
Variable enforced : triple.
Variable columns : list scalar.

Local Abbreviation cell := (cell_record parse enforced).
Local Abbreviation question := (row_question clean columns).
Local Abbreviation write := (write_cell parse enforced columns).
Local Abbreviation after := (votes_after clean parse enforced columns).
Local Abbreviation qkeys := (question_keys clean columns).

Lemma existsb_str_In (q : str) (ks : list str) :
  existsb (str_eqb q) ks = true <-> In q ks.
Proof.
  rewrite existsb_exists. split.
  - intros [x [Hin Hx]]. apply str_eqb_eq in Hx. now subst.
  - intros Hin. exists q. split; [exact Hin|apply str_eqb_refl].
Qed.

Lemma keys_set_vote (q : str) (rec : VoteRecord) (d : dict str VoteRecord) :
  keys (dict_set str_eqb q rec d)
  = if existsb (str_eqb q) (keys d) then keys d else keys d ++ [q].
Proof.
  destruct (existsb (str_eqb q) (keys d)) eqn:E.
  - apply keys_dict_set_in; [apply str_eqb_eq|]. now apply existsb_str_In.
  - apply keys_dict_set_new; [apply str_eqb_eq|].
    intros Hin. apply existsb_str_In in Hin. congruence.
Qed.

Lemma keys_votes_after (column : scalar) (rows : list row) :
  forall d,
    (forall r t s, In r rows -> question r = Ok (Some (t, s)) ->
                   exists rec, cell t s (at_ columns r column) = Ok rec) ->
    keys (after rows column d) = qkeys rows (keys d).
Proof.
  induction rows as [|r rows IH]; intros d Hrec; [reflexivity|].
  simpl. destruct (question r) as [[[t s]|]|] eqn:Hq.
  - destruct (Hrec r t s (or_introl eq_refl) Hq) as [rec Hc].
    rewrite IH by (intros r' t' s' Hin; apply Hrec; now right).
    unfold write_cell. now rewrite Hc, keys_set_vote.
  - apply IH. intros r' t' s' Hin. apply Hrec. now right.
  - apply IH. intros r' t' s' Hin. apply Hrec. now right.
Qed.

Lemma NoDup_votes_after (column : scalar) (rows : list row) :
  forall d, NoDup (keys d) -> NoDup (keys (after rows column d)).
Proof.
  induction rows as [|r rows IH]; intros d Hnd; [exact Hnd|].
  simpl. destruct (question r) as [[[t s]|]|]; try now apply IH.
  apply IH. unfold write_cell.
  destruct (cell t s (at_ columns r column)); [|exact Hnd].
  now apply NoDup_keys_dict_set; [apply str_eqb_eq|].
Qed.


Lemma votes_after_app (column : scalar) (rows rows' : list row) :
  forall d, after (rows ++ rows') column d = after rows' column (after rows column d).
Proof.
  induction rows as [|r rows IH]; intros d; [reflexivity|].
  simpl. destruct (question r) as [[[t s]|]|]; apply IH.
Qed.

(** Rows with other identifiers leave the record under [q] alone. *)
Lemma votes_after_other (column : scalar) (q : str) (rows : list row) :
  forall d,
    (forall r t s, In r rows -> question r = Ok (Some (t, s)) ->
                   question_identifier t s <> q) ->
    dict_get str_eqb q (after rows column d) = dict_get str_eqb q d.
Proof.
  induction rows as [|r rows IH]; intros d Hne; [reflexivity|].
  simpl. destruct (question r) as [[[t s]|]|] eqn:Hq;
    try (apply IH; intros r' t' s' Hin; apply Hne; now right).
  rewrite IH by (intros r' t' s' Hin; apply Hne; now right).
  unfold write_cell. destruct (cell t s (at_ columns r column)); [|reflexivity].
  apply dict_get_set_other; [apply str_eqb_eq|].
  intros Heq. apply (Hne r t s (or_introl eq_refl) Hq). congruence.
Qed.

(** The record under an identifier is the one of the last row that has
    this identifier. *)
Lemma votes_after_last (column : scalar) (pre post : list row) (r : row)
      (t : option str) (s : str) (rec : VoteRecord) (d : dict str VoteRecord) :
  question r = Ok (Some (t, s)) ->
  cell t s (at_ columns r column) = Ok rec ->
  (forall r' t' s', In r' post -> question r' = Ok (Some (t', s')) ->
                    question_identifier t' s' <> question_identifier t s) ->
  dict_get str_eqb (question_identifier t s) (after (pre ++ r :: post) column d)
  = Some rec.
Proof.
  intros Hq Hc Hpost. rewrite votes_after_app. simpl. rewrite Hq.
  rewrite votes_after_other by exact Hpost.
  unfold write_cell. rewrite Hc. apply dict_get_set_same, str_eqb_eq.
Qed.
End VotesFacts.

(* ===================================================================== *)
(** * Reshaper *)
(* ===================================================================== *)



(** C7. When two data rows have the same question identifier, every
    entity of the document has one entry under this identifier, and it
    is the record built from the later row (the last row that has this
    identifier). *)
Theorem C7_last_row_wins (v : variant) (t : table) (doc : document)
        (columns : list scalar) (pre mid post : list row) (r1 r2 : row)
        (topic1 topic2 : option str) (statement1 statement2 : str) :
  generate_from_new_structure v t = Ok doc ->
  head v t = columns :: pre ++ r1 :: mid ++ r2 :: post ->
  row_question (clean_text v) columns r1 = Ok (Some (topic1, statement1)) ->
  row_question (clean_text v) columns r2 = Ok (Some (topic2, statement2)) ->
  question_identifier topic1 statement1 = question_identifier topic2 statement2 ->
  (forall r topic statement,
      In r post ->
      row_question (clean_text v) columns r = Ok (Some (topic, statement)) ->
      question_identifier topic statement
      <> question_identifier topic2 statement2) ->
  forall h e,
    In (h, e) (entities doc) ->
    exists rec,
      vote_record v topic2 statement2 (at_ columns r2 h) = Ok rec
      /\ dict_get str_eqb (question_identifier topic1 statement1) (entry_votes e)
         = Some rec
      /\ List.length
           (filter (fun kv => str_eqb (fst kv)
                                      (question_identifier topic1 statement1))
                   (entry_votes e)) = 1%nat.
Proof.
  rewrite generate_reshape. intros H Hhead Hq1 Hq2 Hsame Hpost h e Hin.
  destruct (reshape_spec _ _ _ _ _ _ _ _ H)
    as [columns' [data_frame [headers [Hhead' [_ [_ [_ [_ [_ [Hent [_ Hrec]]]]]]]]]]].
  rewrite Hhead in Hhead'. injection Hhead' as <- <-.
  rewrite Hent in Hin. apply in_map_iff in Hin as [c [Heq Hc]].
  injection Heq as <- <-. simpl.
  assert (Hr2 : In r2 (pre ++ r1 :: mid ++ r2 :: post)).
  { apply in_or_app. right. right. apply in_or_app. right. now left. }
  destruct (Hrec r2 topic2 statement2 c Hr2 Hq2 Hc) as [rec Hcell].
  exists rec. split; [exact Hcell|].
  assert (Hget : dict_get str_eqb (question_identifier topic1 statement1)
                   (votes_after (clean_text v) (parse_cell_combined v)
                      (enforced_defaults v) columns
                      (pre ++ r1 :: mid ++ r2 :: post) c [])
                 = Some rec).
  { rewrite Hsame.
    change (pre ++ r1 :: mid ++ r2 :: post)
      with (pre ++ (r1 :: mid) ++ r2 :: post).
    rewrite app_assoc. now apply votes_after_last. }
  split; [exact Hget|].
  apply single_entry; [apply str_eqb_eq| |].
  - apply NoDup_votes_after. constructor.
  - apply (dict_get_In str_eqb str_eqb_eq) in Hget.
    change (question_identifier topic1 statement1)
      with (fst (question_identifier topic1 statement1, rec)).
    now apply in_map.
Qed.

Lemma C7_last_row_wins_witness :
  let columns := [Tema; Statement; SStr (u "Ana Ruiz (Partido X)")] in
  let r1 := [SStr (u "Salud"); SStr (u "Pregunta"); SStr (u "A favor***antes")] in
  let r2 := [SStr (u " Salud"); SStr (u "Pregunta "); SStr (u "En contra***ahora")] in
  let r3 := [SStr (u "Salud"); SStr (u "Otra"); SNaN] in
  let sheet := [columns; r1; r2; r3] in
  let doc := document_of (generate_from_new_structure peru_pres_2026 sheet) in
  exists h e,
    In (h, e) (entities doc)
    /\ exists rec,
      vote_record peru_pres_2026 (Some (u "Salud")) (u "Pregunta")
                  (at_ columns r2 h) = Ok rec
      /\ dict_get str_eqb (question_identifier (Some (u "Salud")) (u "Pregunta"))
                  (entry_votes e) = Some rec
      /\ List.length
           (filter (fun kv => str_eqb (fst kv)
                                (question_identifier (Some (u "Salud")) (u "Pregunta")))
                   (entry_votes e)) = 1%nat.
Proof.
  intros columns r1 r2 r3 sheet doc.
  destruct (entities doc) as [|[h e] rest] eqn:Hent;
    [vm_compute in Hent; discriminate|].
  exists h, e. split; [now left|].
  apply (C7_last_row_wins peru_pres_2026 sheet doc columns [] [] [r3] r1 r2
           (Some (u "Salud")) (Some (u "Salud")) (u "Pregunta") (u "Pregunta")).
  - vm_compute. reflexivity.
  - reflexivity.
  - vm_compute. reflexivity.
  - vm_compute. reflexivity.
  - reflexivity.
  - intros r topic statement [<-|[]] Hq. vm_compute in Hq.
    injection Hq as <- <-. vm_compute. discriminate.
  - rewrite Hent. now left.
Defined.

(** The rows that [head] keeps. *)
Lemma head_row_cap (v : variant) (t : table) : head v t = firstn (row_cap v) t.
Proof.
  destruct v; try reflexivity.
  unfold head. rewrite firstn_firstn. reflexivity.
Qed.

(** C8. Of a sheet with more raw rows than the cap of the script, the
    rows beyond the cap have no part in the result: the run gives what
    it gives on the first rows alone, document or exception, whatever
    the rows beyond are. *)
Theorem C8_rows_beyond_cap (v : variant) (t : table) :
  (row_cap v < List.length t)%nat ->
  generate_from_new_structure v t
  = generate_from_new_structure v (firstn (row_cap v) t)
  /\ forall beyond,
       generate_from_new_structure v (firstn (row_cap v) t ++ beyond)
       = generate_from_new_structure v t.
Proof.
  intros Hlen.
  assert (Hhead : forall t1 t2, head v t1 = head v t2 ->
                                generate_from_new_structure v t1
                                = generate_from_new_structure v t2).
  { intros t1 t2 H. rewrite !generate_reshape. unfold reshape. now rewrite H. }
  split.
  - apply Hhead. rewrite !head_row_cap, firstn_firstn. f_equal. lia.
  - intros beyond. apply Hhead. rewrite !head_row_cap.
    rewrite firstn_app, firstn_firstn, length_firstn.
    replace (row_cap v - Nat.min (row_cap v) (List.length t))%nat with 0%nat by lia.
    simpl. rewrite app_nil_r. f_equal. lia.
Qed.

Lemma C8_rows_beyond_cap_witness :
  let header := [Tema; Statement; SStr (u "Partido A")] in
  let r n := [SStr (u "Tema"); SStr n; SStr (u "1")] in
  let sheet :=
      header :: map r [u "a"; u "b"; u "c"; u "d"; u "e"; u "f"; u "g"; u "h";
                       u "i"; u "j"] in
  generate_from_new_structure peru_partidos_2026 sheet
  = generate_from_new_structure peru_partidos_2026
      (firstn (row_cap peru_partidos_2026) sheet)
  /\ forall beyond,
       generate_from_new_structure peru_partidos_2026
         (firstn (row_cap peru_partidos_2026) sheet ++ beyond)
       = generate_from_new_structure peru_partidos_2026 sheet.
Proof.
  intros header r sheet.
  apply (C8_rows_beyond_cap peru_partidos_2026 sheet).
  simpl. lia.
Defined.

(* ===================================================================== *)
(** * Fatal conditions *)
(* ===================================================================== *)

Section Completion.
Variable clean : pyval -> result (option str).
Variable parse : pyval -> result triple.
Variable enforced : triple.
Variable columns : list scalar.
Hypothesis clean_total : forall r label, exists o, clean (at_ columns r label) = Ok o.
Hypothesis parse_total : forall r label, exists t, parse (at_ columns r label) = Ok t.

Lemma cell_record_total (t : option str) (s : str) (cell_value : pyval) :
  (exists x, parse cell_value = Ok x) ->
  exists rec, cell_record parse enforced t s cell_value = Ok rec.
Proof.
  intros [[[a b] d] H]. unfold cell_record. rewrite H. simpl.
  destruct enforced as [[x y] z]. destruct a, b, d; eauto.
Qed.

Lemma store_total (column : scalar) (qid : str) (rec : VoteRecord)
      (info : dict scalar entity) :
  In column (keys info) ->
  exists info', store column qid rec info = Ok info' /\ keys info' = keys info.
Proof.
  intros Hin. unfold store.
  destruct (dict_get scalar_eqb column info) as [e|] eqn:G.
  - eexists. split; [reflexivity|].
    now apply keys_dict_set_in; [apply scalar_eqb_eq|].
  - apply (dict_get_None scalar_eqb scalar_eqb_eq) in G. contradiction.
Qed.

Lemma each_column_total (r : row) (t : option str) (s : str)
      (todo : list scalar) :
  forall info,
    (forall c, In c todo -> In c (keys info)) ->
    exists info',
      each_column parse enforced columns r t s todo info = Ok info'
      /\ keys info' = keys info.
Proof.
  induction todo as [|c todo IH]; intros info Hsub; simpl.
  - now exists info.
  - destruct (cell_record_total t s (at_ columns r c) (parse_total r c))
      as [x ->].
    simpl.
    destruct (store_total c (question_identifier t s) x info
                          (Hsub c (or_introl eq_refl))) as [info1 [-> Hk]].
    simpl. destruct (IH info1) as [info' [H Hk']].
    + intros c' Hin. rewrite Hk. apply Hsub. now right.
    + exists info'. split; [exact H|congruence].
Qed.

Lemma each_row_total (entity_columns : list scalar) (rows : list row) :
  forall info,
    (forall c, In c entity_columns -> In c (keys info)) ->
    exists info',
      each_row clean parse enforced columns entity_columns rows info = Ok info'.
Proof.
  induction rows as [|r rows IH]; intros info Hsub; simpl; [eauto|].
  destruct (clean_total r Tema) as [t ->]. simpl.
  destruct (clean_total r Statement) as [[s|] ->]; simpl; [|now apply IH].
  destruct (each_column_total r t s entity_columns info Hsub) as [info1 [-> Hk]].
  simpl. apply IH. intros c Hin. rewrite Hk. now apply Hsub.
Qed.
End Completion.

Lemma reshape_total (hd_rows : table -> table)
      (clean : pyval -> result (option str))
      (parse : pyval -> result triple) (enforced : triple)
      (desc : scalar -> scalar * option scalar) (key : str)
      (t : table) (columns : list scalar) (data_frame : list row) :
  hd_rows t = columns :: data_frame ->
  has_column columns Statement = true ->
  has_column columns Tema = true ->
  (forall r label, exists o, clean (at_ columns r label) = Ok o) ->
  (forall r label, exists x, parse (at_ columns r label) = Ok x) ->
  exists doc, reshape hd_rows clean parse enforced desc key t = Ok doc.
Proof.
  intros Hhead Hs Ht Hclean Hparse. unfold reshape. rewrite Hhead, Hs, Ht. simpl.
  destruct (each_row_total clean parse enforced columns Hclean Hparse
                           (filter is_entity_column columns) data_frame
                           (init_info desc (filter is_entity_column columns)))
    as [info ->].
  - intros c Hin. now apply init_info_spec.
  - simpl. eauto.
Qed.

(** Each of the two conditions is fatal in every script. *)
Lemma fatal_condition_raises (v : variant) (t : table) :
  fatal_condition v t = true ->
  generate_from_new_structure v t = Raise EmptySheet
  \/ generate_from_new_structure v t = Raise MissingColumns.
Proof.
  unfold fatal_condition. rewrite generate_reshape. unfold reshape.
  destruct (head v t) as [|columns data_frame]; [now left|].
  intros H. rewrite H. now right.
Qed.

Lemma parse_cell_scalar (v : variant) (x : scalar) :
  exists t, parse_cell_combined v (PScalar x) = Ok t.
Proof.
  rewrite parse_cell_combined_with. unfold parse_cell_with.
  rewrite clean_text_scalar. cbn [bind].
  destruct (clean_scalar x); [|eauto].
  rewrite !clean_part_scalar. cbn [bind]. eauto.
Qed.

(** The Chilean party script cleans a Series too, so that its loop never
    raises: its run is fatal exactly under the two conditions. *)
Lemma chile_partidos_clean_total (x : pyval) :
  exists o, ChilePartidos.clean_text x = Ok o.
Proof.
  unfold ChilePartidos.clean_text. destruct x as [x|xs].
  - destruct x as [| |s]; eauto. destruct (strip s); eauto.
  - destruct xs as [|x [|y xs]]; eauto.
    destruct x as [| |s]; eauto. destruct (strip s); eauto.
Qed.

Lemma chile_partidos_parse_total (x : pyval) :
  exists t, ChilePartidos.parse_cell_combined x = Ok t.
Proof.
  change ChilePartidos.parse_cell_combined
    with (parse_cell_combined chile_partidos_2025).
  rewrite parse_cell_combined_with. unfold parse_cell_with.
  destruct (chile_partidos_clean_total x) as [o Ho].
  change (clean_text chile_partidos_2025 x) with (ChilePartidos.clean_text x).
  rewrite Ho. cbn [bind]. destruct o; [|eauto].
  rewrite !clean_part_scalar. cbn [bind]. eauto.
Qed.

Lemma chile_partidos_fatal_iff (t : table) :
  (exists e, generate_from_new_structure chile_partidos_2025 t = Raise e)
  <-> fatal_condition chile_partidos_2025 t = true.
Proof.
  split.
  - intros [e He]. destruct (fatal_condition chile_partidos_2025 t) eqn:F;
      [reflexivity|exfalso].
    unfold fatal_condition in F.
    destruct (head chile_partidos_2025 t) as [|columns data_frame] eqn:Hh;
      [discriminate|].
    apply orb_false_iff in F as [Fs Ft]. apply negb_false_iff in Fs, Ft.
    rewrite generate_reshape in He.
    destruct (reshape_total _ (clean_text chile_partidos_2025)
                (parse_cell_combined chile_partidos_2025)
                (enforced_defaults chile_partidos_2025)
                (describe chile_partidos_2025) (output_key chile_partidos_2025)
                t columns data_frame Hh Fs Ft) as [doc Hdoc].
    + intros r label. apply chile_partidos_clean_total.
    + intros r label. apply chile_partidos_parse_total.
    + congruence.
  - intros F. destruct (fatal_condition_raises _ _ F) as [H|H]; eauto.
Qed.

(** With labels that are pairwise distinct every cell is a scalar, and
    the run of every script is fatal exactly under the two conditions. *)
Lemma cells_at_unique (columns : list scalar) (label : scalar) :
  NoDup columns ->
  forall r, (List.length (cells_at columns r label) <= 1)%nat.
Proof.
  induction columns as [|c cs IH]; intros Hnd r; simpl; [lia|].
  inversion Hnd as [|? ? Hni Hnd']; subst.
  destruct (scalar_eqb c label) eqn:E; [|now apply IH].
  apply scalar_eqb_eq in E. subst c. simpl.
  assert (Hnone : forall r', cells_at cs r' label = []).
  { clear IH Hnd Hnd'. induction cs as [|c cs IH]; intros r'; [reflexivity|].
    simpl. destruct (scalar_eqb c label) eqn:E.
    - apply scalar_eqb_eq in E. subst. exfalso. apply Hni. now left.
    - apply IH. intros H. apply Hni. now right. }
  rewrite Hnone. simpl. lia.
Qed.

Lemma at_unique_scalar (columns : list scalar) (label : scalar) (r : row) :
  NoDup columns -> exists x, at_ columns r label = PScalar x.
Proof.
  intros Hnd. pose proof (cells_at_unique columns label Hnd r) as Hl.
  unfold at_. destruct (cells_at columns r label) as [|x [|y xs]]; eauto.
  simpl in Hl. lia.
Qed.

Lemma unique_labels_fatal_iff (v : variant) (t : table) :
  NoDup (hd [] (head v t)) ->
  (exists e, generate_from_new_structure v t = Raise e)
  <-> fatal_condition v t = true.
Proof.
  intros Hnd. split.
  - intros [e He]. destruct (fatal_condition v t) eqn:F; [reflexivity|exfalso].
    unfold fatal_condition in F.
    destruct (head v t) as [|columns data_frame] eqn:Hh; [discriminate|].
    apply orb_false_iff in F as [Fs Ft]. apply negb_false_iff in Fs, Ft.
    rewrite generate_reshape in He. simpl in Hnd.
    destruct (reshape_total _ (clean_text v) (parse_cell_combined v)
                (enforced_defaults v) (describe v) (output_key v)
                t columns data_frame Hh Fs Ft) as [doc Hdoc].
    + intros r label. destruct (at_unique_scalar columns label r Hnd) as [x ->].
      rewrite clean_text_scalar. eauto.
    + intros r label. destruct (at_unique_scalar columns label r Hnd) as [x ->].
      apply parse_cell_scalar.
    + congruence.
  - intros F. destruct (fatal_condition_raises _ _ F) as [H|H]; eauto.
Qed.

(** C6. A sheet in which two entity columns carry the same header has a
    row after truncation and both mandatory columns, and yet three of
    the four scripts raise on it and write nothing: the cell of a
    repeated label is a Series, which only the Chilean party script
    cleans.  Each of the two conditions is fatal in every script; they
    are the only fatal ones in the Chilean party script, and in every
    script when the labels are pairwise distinct. *)
Theorem C6_repeated_header_raises :
  let sheet :=
      [[Tema; Statement; SStr (u "Partido A"); SStr (u "Partido A")];
       [SStr (u "Salud"); SStr (u "Pregunta 1"); SStr (u "1"); SStr (u "0")]] in
  (forall v, fatal_condition v sheet = false)
  /\ generate_from_new_structure peru_partidos_2026 sheet = Raise AmbiguousTruth
  /\ generate_from_new_structure chile_presidencial_2025 sheet = Raise AmbiguousTruth
  /\ generate_from_new_structure peru_pres_2026 sheet = Raise AmbiguousTruth
  /\ (exists doc, generate_from_new_structure chile_partidos_2025 sheet = Ok doc)
  /\ (forall v t,
         fatal_condition v t = true ->
         exists e, generate_from_new_structure v t = Raise e)
  /\ (forall t,
         (exists e, generate_from_new_structure chile_partidos_2025 t = Raise e)
         <-> fatal_condition chile_partidos_2025 t = true)
  /\ (forall v t,
         NoDup (hd [] (head v t)) ->
         (exists e, generate_from_new_structure v t = Raise e)
         <-> fatal_condition v t = true).
Proof.
  intros sheet.
  split; [intros v; destruct v; reflexivity|].
  split; [vm_compute; reflexivity|].
  split; [vm_compute; reflexivity|].
  split; [vm_compute; reflexivity|].
  split.
  { destruct (generate_from_new_structure chile_partidos_2025 sheet)
      as [doc|e] eqn:E; [eauto|vm_compute in E; discriminate]. }
  split.
  { intros v t F. destruct (fatal_condition_raises v t F) as [H|H]; eauto. }
  split; [exact chile_partidos_fatal_iff|exact unique_labels_fatal_iff].
Qed.


(* ===================================================================== *)
(** * Further properties: cleaning *)
(* ===================================================================== *)

Lemma clean_scalar_Some (x : scalar) (s : str) :
  clean_scalar x = Some s -> exists t, s = strip t /\ s <> [].
Proof.
  destruct x as [| |t]; simpl; try discriminate.
  destruct (strip t) as [|c r] eqn:E; [discriminate|].
  intros H. injection H as <-. exists t. split; [now rewrite E|discriminate].
Qed.

Lemma clean_text_Some (v : variant) (x : pyval) (s : str) :
  clean_text v x = Ok (Some s) -> exists t, s = strip t /\ s <> [].
Proof.
  destruct x as [x|xs].
  - rewrite clean_text_scalar. intros H. injection H as H.
    now apply clean_scalar_Some in H.
  - destruct v; try discriminate.
    destruct xs as [|x [|y xs]]; try discriminate.
    change (clean_text chile_partidos_2025 (PSeries [x]))
      with (clean_text chile_partidos_2025 (PScalar x)).
    rewrite clean_text_scalar. intros H. injection H as H.
    now apply clean_scalar_Some in H.
Qed.

Lemma clean_scalar_fixed (s : str) :
  s <> [] -> strip s = s -> clean_scalar (SStr s) = Some s.
Proof.
  intros Hne Hs. simpl. rewrite Hs. destruct s; [congruence|reflexivity].
Qed.

(** X1. What [clean_text] returns is never the empty text and has no
    white space at either end; cleaning it again changes nothing.  This
    holds in each of the four scripts. *)
Theorem X1_clean_text_trimmed (v : variant) (x : pyval) (s : str) :
  clean_text v x = Ok (Some s) ->
  s <> [] /\ strip s = s /\ clean_text v (PScalar (SStr s)) = Ok (Some s).
Proof.
  intros H. destruct (clean_text_Some v x s H) as [t [-> Hne]].
  split; [exact Hne|]. split; [apply strip_idem|].
  rewrite clean_text_scalar. f_equal.
  apply clean_scalar_fixed; [exact Hne|apply strip_idem].
Qed.

Lemma X1_clean_text_trimmed_witness :
  u "A favor" <> []
  /\ strip (u "A favor") = u "A favor"
  /\ clean_text peru_pres_2026 (PScalar (SStr (u "A favor")))
     = Ok (Some (u "A favor")).
Proof.
  apply (X1_clean_text_trimmed peru_pres_2026
           (PScalar (SStr (u "  A favor  ")))).
  vm_compute. reflexivity.
Defined.

Lemma raises_not_ok {A : Type} (r : result A) :
  (exists e, r = Raise e) <-> (forall a, r <> Ok a).
Proof.
  destruct r as [a|e]; split.
  - intros [e H]. discriminate.
  - intros H. now destruct (H a).
  - intros _ a. discriminate.
  - intros _. now exists e.
Qed.

(** X2. In the three scripts other than the Chilean party script,
    [clean_text] and [parse_cell_combined] raise exactly when they are
    given a Series; on a scalar cell they always return. *)
Theorem X2_series_raises (v : variant) (x : pyval) :
  v <> chile_partidos_2025 ->
  ((exists e, clean_text v x = Raise e) <-> is_series x = true)
  /\ ((exists e, parse_cell_combined v x = Raise e) <-> is_series x = true).
Proof.
  intros Hv. destruct x as [x|xs]; simpl.
  - split.
    + rewrite clean_text_scalar. split; [intros [e H]|]; discriminate.
    + destruct (parse_cell_scalar v x) as [t ->].
      split; [intros [e H]|]; discriminate.
  - split; (split; [reflexivity|intros _]); exists AmbiguousTruth;
      destruct v; try reflexivity; congruence.
Qed.

Lemma X2_series_raises_witness :
  ((exists e, clean_text peru_partidos_2026
                         (PSeries [SStr (u "1"); SStr (u "0")]) = Raise e)
   <-> is_series (PSeries [SStr (u "1"); SStr (u "0")]) = true)
  /\ ((exists e, parse_cell_combined peru_partidos_2026
                    (PSeries [SStr (u "1"); SStr (u "0")]) = Raise e)
      <-> is_series (PSeries [SStr (u "1"); SStr (u "0")]) = true).
Proof.
  apply (X2_series_raises peru_partidos_2026
           (PSeries [SStr (u "1"); SStr (u "0")])).
  discriminate.
Defined.

(** The cells under a label are as many as the columns that carry it. *)
Lemma length_cells_at (columns : list scalar) (label : scalar) :
  forall r,
    List.length (cells_at columns r label)
    = count_occ scalar_eq_dec columns label.
Proof.
  induction columns as [|c cs IH]; intros r; simpl; [reflexivity|].
  unfold scalar_eqb. destruct (scalar_eq_dec c label); simpl; now rewrite IH.
Qed.

(** X3. The Chilean party script never raises on a cell.  It squeezes a
    Series of one cell to that cell, and takes any other Series for a
    missing cell: under a header that two or more columns carry, every
    row gets the missing-cell record, whatever the cells hold. *)
Theorem X3_chile_partidos_repeated_header
        (columns : list scalar) (r : row) (label : scalar)
        (topic_text : option str) (statement_text : str) :
  (2 <= count_occ scalar_eq_dec columns label)%nat ->
  is_series (at_ columns r label) = true
  /\ ChilePartidos.parse_cell_combined (at_ columns r label)
     = Ok missing_cell_default
  /\ vote_record chile_partidos_2025 topic_text statement_text
                 (at_ columns r label)
     = Ok (missing_cell_record topic_text statement_text)
  /\ (forall x, exists t, ChilePartidos.parse_cell_combined x = Ok t)
  /\ (forall x, ChilePartidos.parse_cell_combined (PSeries [x])
                = ChilePartidos.parse_cell_combined (PScalar x)).
Proof.
  intros Hc. rewrite <- (length_cells_at columns label r) in Hc.
  unfold at_. destruct (cells_at columns r label) as [|x [|y xs]];
    simpl in Hc; try lia.
  split; [reflexivity|]. split; [reflexivity|]. split; [reflexivity|].
  split; [exact chile_partidos_parse_total|reflexivity].
Qed.

Lemma X3_chile_partidos_repeated_header_witness :
  let columns := [Tema; Statement; SStr (u "Partido A"); SStr (u "Partido A")] in
  let r := [SStr (u "Salud"); SStr (u "Pregunta 1"); SStr (u "1"); SStr (u "0")] in
  is_series (at_ columns r (SStr (u "Partido A"))) = true
  /\ ChilePartidos.parse_cell_combined (at_ columns r (SStr (u "Partido A")))
     = Ok missing_cell_default
  /\ vote_record chile_partidos_2025 (Some (u "Salud")) (u "Pregunta 1")
                 (at_ columns r (SStr (u "Partido A")))
     = Ok (missing_cell_record (Some (u "Salud")) (u "Pregunta 1"))
  /\ (forall x, exists t, ChilePartidos.parse_cell_combined x = Ok t)
  /\ (forall x, ChilePartidos.parse_cell_combined (PSeries [x])
                = ChilePartidos.parse_cell_combined (PScalar x)).
Proof.
  intros columns r.
  apply (X3_chile_partidos_repeated_header columns r (SStr (u "Partido A"))).
  vm_compute. lia.
Defined.

(* ===================================================================== *)
(** * Further properties: the parsed triple *)
(* ===================================================================== *)

Lemma contains_app_l (p a b : str) :
  contains p (a ++ b) = false -> contains p a = false.
Proof.
  induction a as [|c a IH]; simpl app.
  - destruct p; [|reflexivity]. now destruct b.
  - simpl. destruct (strip_prefix p (c :: a ++ b)) as [r|] eqn:E; [discriminate|].
    intros H. rewrite (IH H).
    destruct (strip_prefix p (c :: a)) as [r|] eqn:E'; [|reflexivity].
    apply strip_prefix_Some in E'.
    assert (Hc : strip_prefix p (c :: a ++ b) = Some (r ++ b)).
    { apply strip_prefix_Some. rewrite app_comm_cons, E'. now rewrite app_assoc. }
    congruence.
Qed.

Lemma contains_tail (p : str) (c : codepoint) (s : str) :
  contains p (c :: s) = false -> contains p s = false.
Proof. simpl. now destruct (strip_prefix p (c :: s)). Qed.

Lemma contains_lstrip (p s : str) :
  contains p s = false -> contains p (lstrip s) = false.
Proof.
  induction s as [|c s IH]; [trivial|]. intros H. simpl.
  destruct (isspace c); [|exact H]. now apply IH, contains_tail with c.
Qed.

Lemma contains_strip (p s : str) :
  contains p s = false -> contains p (strip s) = false.
Proof.
  intros H. apply contains_lstrip in H. unfold strip.
  destruct (rstrip_decompose (lstrip s)) as [w [Hw _]].
  rewrite Hw in H. now apply contains_app_l in H.
Qed.

(** A segment of a split into at most three that is not the third holds
    no delimiter. *)
Lemma split_segment_free (raw : str) (i : nat) (p : str) :
  (i < 2)%nat ->
  nth_error (split delimiter raw 2) i = Some p ->
  contains delimiter p = false.
Proof.
  intros Hi Hn.
  pose proof (split_length delimiter raw 2) as Hlen.
  assert (Hi' : (i < List.length (split delimiter raw 2))%nat)
    by (apply nth_error_Some; congruence).
  rewrite <- (nth_error_nth _ _ [] Hn).
  destruct (Nat.eq_dec (List.length (split delimiter raw 2)) 3) as [H3|H3].
  - apply split_inner_free; [apply delimiter_nonempty|lia].
  - apply split_short_free; [apply delimiter_nonempty|lia].
Qed.

Lemma cleaned_segment_Some (raw : str) (i : nat) (c : str) :
  cleaned_segment (split delimiter raw 2) i = Some c ->
  c <> [] /\ strip c = c
  /\ ((i < 2)%nat -> contains delimiter c = false).
Proof.
  unfold cleaned_segment.
  destruct (nth_error (split delimiter raw 2) i) as [p|] eqn:Hn; [|discriminate].
  intros H. destruct (clean_scalar_Some _ _ H) as [t [Hc Hne]].
  split; [exact Hne|]. split; [rewrite Hc; apply strip_idem|].
  intros Hi. simpl in H. destruct (strip p) eqn:E; [discriminate|].
  injection H as <-. rewrite <- E.
  apply contains_strip. now apply (split_segment_free raw i).
Qed.

(** X4. Whatever the cell, in each script: a comment that
    [parse_cell_combined] returns is not empty, has no white space at
    either end and holds no delimiter; a source is not empty and has no
    white space at either end; so is a position text that is returned
    as the vote, which holds no delimiter either. *)
Theorem X4_parsed_fields (v : variant) (cell_value : pyval)
        (vote_value : option vote_value) (comment_value source_value : option str) :
  parse_cell_combined v cell_value = Ok (vote_value, comment_value, source_value) ->
  (forall c, comment_value = Some c ->
             c <> [] /\ strip c = c /\ contains delimiter c = false)
  /\ (forall s, source_value = Some s -> s <> [] /\ strip s = s)
  /\ (forall t, vote_value = Some (VText t) ->
                t <> [] /\ strip t = t /\ contains delimiter t = false).
Proof.
  rewrite parse_cell_combined_with.
  destruct (clean_text v cell_value) as [[raw|]|e] eqn:Hc.
  - rewrite (parse_cell_with_present v _ _ raw Hc).
    remember (split delimiter raw 2) as parts eqn:Hparts.
    intros H. injection H as Hv Hcm Hs. rewrite Hparts in *. split; [|split].
    + intros c ->. destruct (cleaned_segment_Some raw 1 c Hcm) as [H1 [H2 H3]].
      split; [exact H1|]. split; [exact H2|]. apply H3. lia.
    + intros s ->. destruct (cleaned_segment_Some raw 2 s Hs) as [H1 [H2 _]].
      now split.
    + intros t ->. destruct v; cbn [vote_mapping] in Hv;
        try (destruct (ChilePartidos.map_vote_text_to_value _); discriminate);
        try (destruct (PeruPartidos.map_vote_text_to_value _); discriminate);
        try (destruct (PeruPres.map_vote_text_to_value _); discriminate).
      destruct (cleaned_segment (split delimiter raw 2) 0) as [t0|] eqn:E;
        cbn [option_map] in Hv; [|discriminate].
      injection Hv as ->.
      destruct (cleaned_segment_Some raw 0 t E) as [H1 [H2 H3]].
      split; [exact H1|]. split; [exact H2|]. apply H3. lia.
  - rewrite (parse_cell_with_absent v _ _ Hc).
    intros H. injection H as <- <- <-. split; [|split].
    + intros c H. injection H as <-. repeat split; vm_compute; congruence.
    + discriminate.
    + discriminate.
  - unfold parse_cell_with. rewrite Hc. discriminate.
Qed.

Lemma X4_parsed_fields_witness :
  (forall c, Some (u "un") = Some c ->
             c <> [] /\ strip c = c /\ contains delimiter c = false)
  /\ (forall s, Some (u "comentario ***a***b") = Some s ->
                s <> [] /\ strip s = s)
  /\ (forall t, Some (VText (u "A favor")) = Some (VText t) ->
                t <> [] /\ strip t = t /\ contains delimiter t = false).
Proof.
  apply (X4_parsed_fields chile_presidencial_2025
           (PScalar (SStr (u " A favor *** un *** comentario ***a***b ")))).
  vm_compute. reflexivity.
Defined.

(* ===================================================================== *)
(** * Further properties: the vote mapper *)
(* ===================================================================== *)

Lemma mapVote_blank (t : str) : strip t = [] -> mapVote (Some t) = None.
Proof. intros H. unfold mapVote. now rewrite H. Qed.

Lemma mapVote_text (t : str) :
  strip t <> [] ->
  mapVote (Some t)
  = match py_float (replace_comma (strip t)) with
    | Some x => Some x
    | None => first_match (lower (strip t))
    end.
Proof. intros H. unfold mapVote. destruct (strip t); [congruence|reflexivity]. Qed.

Lemma first_match_values (l : str) (x : float) :
  first_match l = Some x -> x = float_1_0 \/ x = float_0_0 \/ x = float_0_5.
Proof.
  unfold first_match, vocabulary. cbn [find fst snd].
  repeat match goal with
         | |- context [if ?b then _ else _] => destruct b
         end; cbn [option_map snd]; intros H; try discriminate;
    injection H as <-; tauto.
Qed.

(** X5. A vote that the mapper of the Peruvian candidate script returns
    is the number that the position text parses to, or one of 1.0, 0.0
    and 0.5; in the two party scripts it is always the number that the
    text parses to.  In the three scripts [None] and a blank text give
    no vote. *)
Theorem X5_vote_values (text : option str) (x : float) :
  (PeruPres.map_vote_text_to_value text = Some x ->
   (exists t, text = Some t /\ strip t <> []
              /\ py_float (replace_comma (strip t)) = Some x)
   \/ x = float_1_0 \/ x = float_0_0 \/ x = float_0_5)
  /\ (ChilePartidos.map_vote_text_to_value text = Some x ->
      exists t, text = Some t /\ strip t <> []
                /\ py_float (replace_comma (strip t)) = Some x)
  /\ (PeruPartidos.map_vote_text_to_value text = Some x ->
      exists t, text = Some t /\ strip t <> []
                /\ py_float (replace_comma (strip t)) = Some x)
  /\ (forall t, text = Some t -> strip t = [] ->
                PeruPres.map_vote_text_to_value text = None
                /\ ChilePartidos.map_vote_text_to_value text = None
                /\ PeruPartidos.map_vote_text_to_value text = None).
Proof.
  split; [|split; [|split]].
  - rewrite peru_pres_map_vote_refines. destruct text as [t|]; [|discriminate].
    destruct (strip t) as [|c r] eqn:E; [now rewrite mapVote_blank|].
    rewrite mapVote_text by congruence. rewrite E.
    destruct (py_float (replace_comma (c :: r))) as [y|] eqn:F.
    + intros H. injection H as <-. left. exists t. rewrite E.
      split; [reflexivity|]. split; [discriminate|exact F].
    + intros H. right. now apply first_match_values in H.
  - destruct text as [t|]; [|discriminate].
    unfold ChilePartidos.map_vote_text_to_value.
    destruct (strip t) as [|c r] eqn:E; [discriminate|].
    destruct (py_float (replace_comma (c :: r))) as [y|] eqn:F; [|discriminate].
    intros H. injection H as <-. exists t. rewrite E.
    split; [reflexivity|]. split; [discriminate|exact F].
  - destruct text as [t|]; [|discriminate].
    unfold PeruPartidos.map_vote_text_to_value.
    destruct (strip t) as [|c r] eqn:E; [discriminate|].
    destruct (py_float (replace_comma (c :: r))) as [y|] eqn:F; [|discriminate].
    intros H. injection H as <-. exists t. rewrite E.
    split; [reflexivity|]. split; [discriminate|exact F].
  - intros t -> E.
    unfold PeruPres.map_vote_text_to_value, ChilePartidos.map_vote_text_to_value,
      PeruPartidos.map_vote_text_to_value.
    now rewrite E.
Qed.

Lemma X5_vote_values_witness :
  ((exists t, Some (u " 2,5 ") = Some t /\ strip t <> []
              /\ py_float (replace_comma (strip t))
                 = Some (decimal_to_float false 25 (-1)))
   \/ decimal_to_float false 25 (-1) = float_1_0
   \/ decimal_to_float false 25 (-1) = float_0_0
   \/ decimal_to_float false 25 (-1) = float_0_5)
  /\ (exists t, Some (u " 2,5 ") = Some t /\ strip t <> []
                /\ py_float (replace_comma (strip t))
                   = Some (decimal_to_float false 25 (-1)))
  /\ PeruPres.map_vote_text_to_value (Some (u "  ")) = None.
Proof.
  destruct (X5_vote_values (Some (u " 2,5 ")) (decimal_to_float false 25 (-1)))
    as [H1 [H2 _]].
  destruct (X5_vote_values (Some (u "  ")) float_0_0) as [_ [_ [_ H4]]].
  split; [apply H1; vm_compute; reflexivity|].
  split; [apply H2; vm_compute; reflexivity|].
  apply (H4 (u "  ")); reflexivity.
Defined.

Lemma isspace_comma (c : codepoint) :
  isspace (if c =? 44 then 46 else c) = isspace c.
Proof. destruct (N.eqb_spec c 44) as [->|]; reflexivity. Qed.

Lemma lstrip_replace_comma (s : str) :
  lstrip (replace_comma s) = replace_comma (lstrip s).
Proof.
  induction s as [|c s IH]; [reflexivity|]. simpl.
  rewrite isspace_comma. destruct (isspace c); [exact IH|reflexivity].
Qed.

Lemma rstrip_replace_comma (s : str) :
  rstrip (replace_comma s) = replace_comma (rstrip s).
Proof.
  induction s as [|c s IH]; [reflexivity|].
  change (replace_comma (c :: s))
    with ((if c =? 44 then 46 else c) :: replace_comma s).
  rewrite !rstrip_cons, IH, isspace_comma.
  destruct (rstrip s); [destruct (isspace c)|]; reflexivity.
Qed.

Lemma strip_replace_comma (s : str) :
  strip (replace_comma s) = replace_comma (strip s).
Proof. unfold strip. now rewrite lstrip_replace_comma, rstrip_replace_comma. Qed.

Lemma replace_comma_idem (s : str) :
  replace_comma (replace_comma s) = replace_comma s.
Proof.
  unfold replace_comma. rewrite map_map. apply map_ext. intros c.
  destruct (N.eqb_spec c 44) as [->|]; [reflexivity|].
  destruct (N.eqb_spec c 44); [contradiction|reflexivity].
Qed.

Lemma lower_cp_comma (c : codepoint) :
  lower_cp (if c =? 44 then 46 else c) = replace_comma (lower_cp c).
Proof.
  destruct (N.eqb_spec c 44) as [->|Hc]; [reflexivity|].
  unfold lower_cp.
  destruct ((65 <=? c) && (c <=? 90)) eqn:E1.
  - apply andb_true_iff in E1 as [H1 H2]. apply N.leb_le in H1, H2. simpl.
    destruct (N.eqb_spec (c + 32) 44); [lia|reflexivity].
  - destruct ((192 <=? c) && (c <=? 222) && negb (c =? 215)) eqn:E2.
    + apply andb_true_iff in E2 as [E2 _]. apply andb_true_iff in E2 as [H1 H2].
      apply N.leb_le in H1, H2. simpl.
      destruct (N.eqb_spec (c + 32) 44); [lia|reflexivity].
    + destruct (c =? 304); [reflexivity|]. simpl.
      destruct (N.eqb_spec c 44); [contradiction|reflexivity].
Qed.

Lemma lower_replace_comma (s : str) :
  lower (replace_comma s) = replace_comma (lower s).
Proof.
  unfold lower, replace_comma.
  induction s as [|c s IH]; [reflexivity|].
  simpl. rewrite map_app, IH. f_equal. apply lower_cp_comma.
Qed.

Lemma strip_prefix_replace_comma (p : str) :
  no_separator p = true ->
  forall s,
    strip_prefix p (replace_comma s)
    = option_map replace_comma (strip_prefix p s).
Proof.
  induction p as [|a p IH]; intros Hp s; [reflexivity|].
  simpl in Hp. apply andb_true_iff in Hp as [Ha Hp].
  apply negb_true_iff, orb_false_iff in Ha as [Ha1 Ha2].
  apply N.eqb_neq in Ha1, Ha2.
  destruct s as [|b s]; [reflexivity|]. simpl.
  destruct (N.eqb_spec b 44) as [->|Hb].
  - destruct (N.eqb_spec a 46); [contradiction|].
    destruct (N.eqb_spec a 44); [contradiction|reflexivity].
  - destruct (a =? b); [now apply IH|reflexivity].
Qed.

Lemma contains_replace_comma (p s : str) :
  no_separator p = true ->
  contains p (replace_comma s) = contains p s.
Proof.
  intros Hp. induction s as [|c s IH].
  - simpl. change [] with (replace_comma []) at 1.
    rewrite strip_prefix_replace_comma by exact Hp.
    now destruct (strip_prefix p []).
  - change (contains p (replace_comma (c :: s)))
      with (match strip_prefix p (replace_comma (c :: s)) with
            | Some _ => true
            | None => contains p (replace_comma s)
            end).
    rewrite strip_prefix_replace_comma by exact Hp. simpl contains.
    rewrite IH. now destruct (strip_prefix p (c :: s)).
Qed.

Lemma replace_comma_eq (p : str) :
  no_separator p = true ->
  forall s, replace_comma s = p <-> s = p.
Proof.
  induction p as [|a p IH]; intros Hp s.
  - destruct s; split; intros H; try reflexivity; discriminate H.
  - simpl in Hp. apply andb_true_iff in Hp as [Ha Hp].
    apply negb_true_iff, orb_false_iff in Ha as [Ha1 Ha2].
    apply N.eqb_neq in Ha1, Ha2.
    destruct s as [|b s]; [simpl; split; discriminate|]. simpl.
    split; intros H; injection H as H1 H2.
    + apply (proj1 (IH Hp s)) in H2.
      destruct (N.eqb_spec b 44) as [Hb|Hb].
      * subst a. now destruct Ha2.
      * now rewrite H1, H2.
    + apply (proj2 (IH Hp s)) in H2.
      destruct (N.eqb_spec b 44) as [Hb|Hb].
      * subst. now destruct Ha1.
      * now rewrite H1, H2.
Qed.

Lemma str_eqb_replace_comma (p s : str) :
  no_separator p = true ->
  str_eqb (replace_comma s) p = str_eqb s p.
Proof.
  intros Hp. destruct (str_eqb s p) eqn:E.
  - apply str_eqb_eq in E. apply str_eqb_eq.
    now apply (proj2 (replace_comma_eq p Hp s)).
  - destruct (str_eqb (replace_comma s) p) eqn:E'; [|reflexivity].
    apply str_eqb_eq in E'. apply (proj1 (replace_comma_eq p Hp s)) in E'.
    apply str_eqb_eq in E'.
    pose proof (eq_trans (eq_sym E') E) as F. discriminate F.
Qed.

Lemma first_match_replace_comma (l : str) :
  first_match (replace_comma l) = first_match l.
Proof.
  unfold first_match, vocabulary. cbn [find fst].
  rewrite !contains_replace_comma by reflexivity.
  rewrite !str_eqb_replace_comma by reflexivity.
  reflexivity.
Qed.

Lemma numeric_replace_comma (t : str) :
  match strip (replace_comma t) with
  | [] => None
  | vt => py_float (replace_comma vt)
  end
  = match strip t with
    | [] => None
    | vt => py_float (replace_comma vt)
    end.
Proof.
  rewrite strip_replace_comma.
  destruct (strip t) as [|c r] eqn:E; [reflexivity|].
  change (match replace_comma (c :: r) with
          | [] => None
          | vt => py_float (replace_comma vt)
          end)
    with (py_float (replace_comma (replace_comma (c :: r)))).
  now rewrite replace_comma_idem.
Qed.

Lemma chile_partidos_numeric (text : str) :
  ChilePartidos.map_vote_text_to_value (Some text)
  = match strip text with
    | [] => None
    | vt => py_float (replace_comma vt)
    end.
Proof.
  unfold ChilePartidos.map_vote_text_to_value.
  destruct (strip text) as [|c r]; [reflexivity|].
  destruct (py_float (replace_comma (c :: r))); reflexivity.
Qed.

Lemma peru_partidos_numeric (text : str) :
  PeruPartidos.map_vote_text_to_value (Some text)
  = match strip text with
    | [] => None
    | vt => py_float (replace_comma vt)
    end.
Proof.
  unfold PeruPartidos.map_vote_text_to_value.
  destruct (strip text) as [|c r]; [reflexivity|].
  destruct (py_float (replace_comma (c :: r))); reflexivity.
Qed.

(** X6. In the three scripts that map position texts, the mapper gives
    the same vote when white space is put around the text, and when
    commas are written for periods or periods for commas: it sees the
    trimmed text only, and a comma as a period. *)
Theorem X6_vote_text_insensitive (t : str) :
  (PeruPres.map_vote_text_to_value (Some (strip t))
   = PeruPres.map_vote_text_to_value (Some t)
   /\ PeruPres.map_vote_text_to_value (Some (replace_comma t))
      = PeruPres.map_vote_text_to_value (Some t))
  /\ (ChilePartidos.map_vote_text_to_value (Some (strip t))
      = ChilePartidos.map_vote_text_to_value (Some t)
      /\ ChilePartidos.map_vote_text_to_value (Some (replace_comma t))
         = ChilePartidos.map_vote_text_to_value (Some t))
  /\ (PeruPartidos.map_vote_text_to_value (Some (strip t))
      = PeruPartidos.map_vote_text_to_value (Some t)
      /\ PeruPartidos.map_vote_text_to_value (Some (replace_comma t))
         = PeruPartidos.map_vote_text_to_value (Some t)).
Proof.
  split; [|split].
  - rewrite !peru_pres_map_vote_refines. split.
    + unfold mapVote. now rewrite strip_idem.
    + destruct (strip t) as [|c r] eqn:E.
      * rewrite !mapVote_blank; [reflexivity|exact E|].
        now rewrite strip_replace_comma, E.
      * assert (Hne : strip (replace_comma t) <> [])
          by (rewrite strip_replace_comma, E; discriminate).
        rewrite (mapVote_text _ Hne), mapVote_text by congruence.
        rewrite strip_replace_comma, replace_comma_idem, lower_replace_comma.
        now rewrite first_match_replace_comma.
  - split.
    + unfold ChilePartidos.map_vote_text_to_value. now rewrite strip_idem.
    + rewrite !chile_partidos_numeric. apply numeric_replace_comma.
  - split.
    + unfold PeruPartidos.map_vote_text_to_value. now rewrite strip_idem.
    + rewrite !peru_partidos_numeric. apply numeric_replace_comma.
Qed.

Lemma contains_prefix_app (p b : str) : contains p (p ++ b) = true.
Proof.
  destruct (p ++ b) as [|c r] eqn:E; simpl.
  - destruct p; [reflexivity|discriminate].
  - rewrite <- E.
    destruct (strip_prefix p (p ++ b)) eqn:F; [reflexivity|].
    assert (H : strip_prefix p (p ++ b) = Some b)
      by now apply strip_prefix_Some.
    congruence.
Qed.

Lemma contains_app_r (p a b : str) :
  contains p b = true -> contains p (a ++ b) = true.
Proof.
  intros H. induction a as [|c a IH]; [exact H|].
  simpl. now destruct (strip_prefix p (c :: a ++ b)).
Qed.

Lemma partition_contains (sep s a b : str) :
  sep <> [] -> partition sep s = Some (a, b) -> contains sep s = true.
Proof.
  intros Hne H. apply (partition_Some sep Hne) in H as [-> _].
  apply contains_app_r, contains_prefix_app.
Qed.

Lemma split_without_delimiter (raw : str) (n : nat) :
  contains delimiter raw = false -> split delimiter raw n = [raw].
Proof.
  intros H. destruct n; [reflexivity|]. simpl.
  destruct (partition delimiter raw) as [[a b]|] eqn:P; [|reflexivity].
  apply (partition_contains _ _ _ _ delimiter_nonempty) in P. congruence.
Qed.

(** X7. In the two party scripts a cell that holds a position text
    alone, without delimiter, that does not parse as a number is
    interpreted as nothing at all: the parsed triple is all [None], and
    the record stored is the one that the script stores for a cell that
    reduces to nothing. *)
Theorem X7_text_alone_is_lost (v : variant) (cell_text : str)
        (topic_text : option str) (statement_text : str) :
  v = chile_partidos_2025 \/ v = peru_partidos_2026 ->
  strip cell_text <> [] ->
  contains delimiter (strip cell_text) = false ->
  py_float (replace_comma (strip cell_text)) = None ->
  parse_cell_combined v (PScalar (SStr cell_text)) = Ok (None, None, None)
  /\ vote_record v topic_text statement_text (PScalar (SStr cell_text))
     = vote_record v topic_text statement_text (PScalar (SStr delimiter)).
Proof.
  intros Hv Hne Hd Hf.
  assert (Hp : parse_cell_combined v (PScalar (SStr cell_text))
               = Ok (None, None, None)).
  { rewrite parse_cell_combined_with.
    rewrite (parse_cell_with_present v _ _ (strip cell_text)).
    - rewrite (split_without_delimiter _ 2 Hd). unfold cleaned_segment.
      cbn [nth_error]. rewrite clean_scalar_fixed by (exact Hne || apply strip_idem).
      rewrite (numeric_only_mapping v _ Hv), strip_idem.
      destruct (strip cell_text); [congruence|]. now rewrite Hf.
    - rewrite clean_text_scalar. f_equal. simpl.
      destruct (strip cell_text); [congruence|reflexivity]. }
  split; [exact Hp|].
  rewrite (vote_record_enforced _ _ _ _ Hp).
  symmetry. apply vote_record_enforced. destruct v; reflexivity.
Qed.

Lemma X7_text_alone_is_lost_witness :
  parse_cell_combined peru_partidos_2026 (PScalar (SStr (u " A favor ")))
  = Ok (None, None, None)
  /\ vote_record peru_partidos_2026 (Some (u "Salud")) (u "Pregunta")
                 (PScalar (SStr (u " A favor ")))
     = vote_record peru_partidos_2026 (Some (u "Salud")) (u "Pregunta")
                   (PScalar (SStr delimiter)).
Proof.
  apply (X7_text_alone_is_lost peru_partidos_2026 (u " A favor ")).
  - right. reflexivity.
  - vm_compute. discriminate.
  - vm_compute. reflexivity.
  - vm_compute. reflexivity.
Defined.

(* ===================================================================== *)
(** * Further properties: the document *)
(* ===================================================================== *)

Lemma cell_record_fields (parse : pyval -> result triple) (enforced : triple)
      (t : option str) (s : str) (x : pyval) (rec : VoteRecord) :
  enforced <> (None, None, None) ->
  cell_record parse enforced t s x = Ok rec ->
  tema rec = t /\ question rec = s
  /\ (vote rec, comment rec, source rec) <> (None, None, None).
Proof.
  intros He. unfold cell_record.
  destruct (parse x) as [[[a b] c]|]; [|discriminate]. cbn [bind].
  destruct enforced as [[x1 x2] x3].
  destruct a, b, c; intros H; injection H as <-; cbn;
    (split; [reflexivity|split; [reflexivity|]]); try discriminate; exact He.
Qed.

Lemma enforced_defaults_some (v : variant) :
  enforced_defaults v <> (None, None, None).
Proof. destruct v; discriminate. Qed.

Section RecordFacts.
Variable clean : pyval -> result (option str).
Variable parse : pyval -> result triple.
Variable enforced : triple.
Variable columns : list scalar.

Local Abbreviation cell := (cell_record parse enforced).
Local Abbreviation rows_loop := (each_row clean parse enforced columns).
Local Abbreviation question := (row_question clean columns).
Local Abbreviation after := (votes_after clean parse enforced columns).

(** A record of the votes was there before the rows, or is the record
    of the cell of one of the rows. *)
Lemma In_votes_after (column : scalar) (rows : list row) :
  forall d q rec,
    In (q, rec) (after rows column d) ->
    In (q, rec) d
    \/ exists r t s,
        In r rows /\ question r = Ok (Some (t, s))
        /\ q = question_identifier t s
        /\ cell t s (at_ columns r column) = Ok rec.
Proof.
  induction rows as [|r rows IH]; intros d q rec H; [now left|].
  simpl in H.
  assert (Hlater :
            forall d', In (q, rec) (after rows column d') ->
                       In (q, rec) d'
                       \/ exists r' t s,
                           In r' (r :: rows) /\ question r' = Ok (Some (t, s))
                           /\ q = question_identifier t s
                           /\ cell t s (at_ columns r' column) = Ok rec).
  { intros d' H'. apply IH in H' as [H'|[r' [t' [s' [Hin H']]]]]; [now left|].
    right. exists r', t', s'. split; [now right|exact H']. }
  destruct (question r) as [[[t s]|]|] eqn:Hq; try now apply Hlater.
  apply Hlater in H as [H|H]; [|now right].
  unfold write_cell in H.
  destruct (cell t s (at_ columns r column)) as [rec'|] eqn:Hc; [|now left].
  apply (In_dict_set str_eqb str_eqb_eq) in H as [[-> ->]|H]; [|now left].
  right. exists r, t, s. split; [now left|]. now split.
Qed.

Lemma length_set_vote (q : str) (rec : VoteRecord) (d : dict str VoteRecord) :
  (List.length (dict_set str_eqb q rec d) <= S (List.length d))%nat.
Proof.
  induction d as [|[k x] d IH]; simpl; [lia|].
  destruct (str_eqb k q); simpl; lia.
Qed.

Lemma length_votes_after (column : scalar) (rows : list row) :
  forall d,
    (List.length (after rows column d) <= List.length d + List.length rows)%nat.
Proof.
  induction rows as [|r rows IH]; intros d; simpl; [lia|].
  destruct (question r) as [[[t s]|]|];
    try (specialize (IH d); lia).
  specialize (IH (write_cell parse enforced columns r t s column d)).
  unfold write_cell in *.
  destruct (cell t s (at_ columns r column)) as [rec|]; [|lia].
  pose proof (length_set_vote (question_identifier t s) rec d). lia.
Qed.

Lemma each_row_app (entity_columns : list scalar) (pre post : list row) :
  forall info,
    rows_loop entity_columns (pre ++ post) info
    = (info' <- rows_loop entity_columns pre info ;;
       rows_loop entity_columns post info').
Proof.
  induction pre as [|r pre IH]; intros info; [reflexivity|].
  rewrite <- app_comm_cons, !each_row_cons.
  destruct (question r) as [[[t s]|]|]; [|apply IH|reflexivity].
  destruct (each_column parse enforced columns r t s entity_columns info);
    [|reflexivity].
  cbn [bind]. apply IH.
Qed.

(** A row without statement has no part in the loop. *)
Lemma each_row_skip (entity_columns : list scalar) (pre post : list row)
      (r : row) (info : dict scalar entity) :
  question r = Ok None ->
  rows_loop entity_columns (pre ++ r :: post) info
  = rows_loop entity_columns (pre ++ post) info.
Proof.
  intros Hq. rewrite !each_row_app.
  destruct (rows_loop entity_columns pre info); [|reflexivity].
  cbn [bind]. now rewrite each_row_cons, Hq.
Qed.

(** Rows without statement leave the entities as they are. *)
Lemma each_row_no_statement (entity_columns : list scalar) (rows : list row)
      (info : dict scalar entity) :
  (forall r, In r rows -> question r = Ok None) ->
  rows_loop entity_columns rows info = Ok info.
Proof.
  induction rows as [|r rows IH]; intros H; [reflexivity|].
  rewrite each_row_cons, (H r (or_introl eq_refl)).
  apply IH. intros r' Hin. apply H. now right.
Qed.
End RecordFacts.

Lemma row_question_Some (v : variant) (columns : list scalar) (r : row)
      (topic : option str) (statement : str) :
  row_question (clean_text v) columns r = Ok (Some (topic, statement)) ->
  clean_text v (at_ columns r Tema) = Ok topic
  /\ clean_text v (at_ columns r Statement) = Ok (Some statement).
Proof.
  unfold row_question.
  destruct (clean_text v (at_ columns r Tema)) as [topic'|]; [|discriminate].
  cbn [bind].
  destruct (clean_text v (at_ columns r Statement)) as [[s|]|];
    try discriminate.
  cbn. intros H. injection H as -> ->. now split.
Qed.

(** X8. In the document of a run that succeeds, every stored record is
    the record of the cell of its entity in one of the data rows kept;
    it sits under the identifier built from its own topic and statement;
    its statement, and its topic when it has one, are non-empty and
    trimmed; and vote, comment and source are never all three absent. *)
Theorem X8_stored_records (v : variant) (t : table) (doc : document)
        (h : scalar) (e : entry) (q : str) (rec : VoteRecord) :
  generate_from_new_structure v t = Ok doc ->
  In (h, e) (entities doc) ->
  In (q, rec) (entry_votes e) ->
  q = question_identifier (tema rec) (question rec)
  /\ question rec <> [] /\ strip (question rec) = question rec
  /\ (forall topic, tema rec = Some topic -> topic <> [] /\ strip topic = topic)
  /\ (vote rec, comment rec, source rec) <> (None, None, None)
  /\ exists r,
      In r (tl (head v t))
      /\ vote_record v (tema rec) (question rec) (at_ (hd [] (head v t)) r h)
         = Ok rec.
Proof.
  rewrite generate_reshape. intros H Hin Hq.
  destruct (reshape_spec _ _ _ _ _ _ _ _ H)
    as [columns [data_frame [headers [Hhead [_ [_ [_ [_ [_ [Hent _]]]]]]]]]].
  rewrite Hhead. cbn [hd tl].
  rewrite Hent in Hin. apply in_map_iff in Hin as [c [Heq Hc]].
  injection Heq as <- <-. cbn [entry_votes] in Hq.
  apply In_votes_after in Hq as [[]|[r [topic [statement [Hr [Hquest [-> Hcell]]]]]]].
  destruct (cell_record_fields _ _ _ _ _ _ (enforced_defaults_some v) Hcell)
    as [Ht [Hs Hne]].
  rewrite Ht, Hs.
  destruct (row_question_Some _ _ _ _ _ Hquest) as [Htopic Hstatement].
  destruct (clean_text_Some _ _ _ Hstatement) as [x [-> Hx]].
  split; [reflexivity|]. split; [exact Hx|]. split; [apply strip_idem|].
  split; [|split; [exact Hne|exists r; now split]].
  intros topic' ->.
  destruct (clean_text_Some _ _ _ Htopic) as [y [-> Hy]].
  split; [exact Hy|apply strip_idem].
Qed.

Lemma X8_stored_records_witness :
  let sheet :=
      [[Tema; Statement; SStr (u "Partido A")];
       [SStr (u " Salud "); SStr (u " Pregunta 1 "); SStr (u "***sin postura")]] in
  let doc := document_of (generate_from_new_structure chile_partidos_2025 sheet) in
  let h := SStr (u "Partido A") in
  let e :=
      snd (hd (SNone, {| entry_name := SNone; entry_party := None;
                         entry_votes := [] |}) (entities doc)) in
  let q := hd [] (keys (entry_votes e)) in
  let rec :=
      hd {| tema := None; question := []; vote := None; comment := None;
            source := None |} (map snd (entry_votes e)) in
  q = question_identifier (tema rec) (question rec)
  /\ question rec <> [] /\ strip (question rec) = question rec
  /\ (forall topic, tema rec = Some topic -> topic <> [] /\ strip topic = topic)
  /\ (vote rec, comment rec, source rec) <> (None, None, None)
  /\ exists r,
      In r (tl (head chile_partidos_2025 sheet))
      /\ vote_record chile_partidos_2025 (tema rec) (question rec)
                     (at_ (hd [] (head chile_partidos_2025 sheet)) r h)
         = Ok rec.
Proof.
  intros sheet doc h e q rec.
  apply (X8_stored_records chile_partidos_2025 sheet doc h e q rec).
  - vm_compute. reflexivity.
  - vm_compute. left. reflexivity.
  - vm_compute. left. reflexivity.
Defined.

Lemma is_entity_column_true (c : scalar) :
  is_entity_column c = true <-> c <> Tema /\ c <> Statement.
Proof.
  unfold is_entity_column. rewrite negb_true_iff, orb_false_iff. split.
  - intros [H1 H2]. split; intros ->; now rewrite scalar_eqb_refl in *.
  - intros [H1 H2]. split.
    + destruct (scalar_eqb c Tema) eqn:E; [|reflexivity].
      now apply scalar_eqb_eq in E.
    + destruct (scalar_eqb c Statement) eqn:E; [|reflexivity].
      now apply scalar_eqb_eq in E.
Qed.

(** X9. The document of a run that succeeds has the key of its script
    and one entry per distinct header of the sheet other than ["Tema"]
    and ["Statement"], no header twice.  In the party scripts the name
    of an entry is its header as it stands in the sheet and there is no
    party; in the candidate scripts name and party are those that
    [parse_candidate_header] reads in the header. *)
Theorem X9_document_entities (v : variant) (t : table) (doc : document) :
  generate_from_new_structure v t = Ok doc ->
  category doc = output_key v
  /\ NoDup (keys (entities doc))
  /\ (forall h, In h (keys (entities doc))
                <-> In h (hd [] (head v t)) /\ h <> Tema /\ h <> Statement)
  /\ (forall h e,
         In (h, e) (entities doc) ->
         match v with
         | chile_partidos_2025 | peru_partidos_2026 =>
           entry_name e = h /\ entry_party e = None
         | chile_presidencial_2025 =>
           entry_name e
           = ChilePresidencial.of_option
               (fst (ChilePresidencial.parse_candidate_header h))
           /\ entry_party e
              = Some (ChilePresidencial.of_option
                        (snd (ChilePresidencial.parse_candidate_header h)))
         | peru_pres_2026 =>
           entry_name e
           = PeruPres.of_option (fst (PeruPres.parse_candidate_header h))
           /\ entry_party e
              = Some (PeruPres.of_option
                        (snd (PeruPres.parse_candidate_header h)))
         end).
Proof.
  rewrite generate_reshape. intros H.
  destruct (reshape_spec _ _ _ _ _ _ _ _ H)
    as [columns [data_frame [headers [Hhead [_ [_ [Hnd [Hin [Hcat [Hent _]]]]]]]]]].
  assert (Hkeys : keys (entities doc) = headers).
  { rewrite Hent. unfold keys. rewrite map_map. apply map_id. }
  split; [exact Hcat|]. rewrite Hkeys, Hhead. cbn [hd].
  split; [exact Hnd|]. split.
  - intros h. rewrite Hin, filter_In, is_entity_column_true. tauto.
  - intros h e He. rewrite Hent in He.
    apply in_map_iff in He as [c [Heq Hc]]. injection Heq as <- <-.
    cbn [entry_name entry_party]. destruct v; cbn [describe].
    + now split.
    + now split.
    + destruct (ChilePresidencial.parse_candidate_header c). now split.
    + destruct (PeruPres.parse_candidate_header c). now split.
Qed.

Lemma X9_document_entities_witness :
  let sheet :=
      [[Tema; SStr (u "Ana Ruiz (Partido X)"); Statement; SStr (u "Luis Paz")];
       [SStr (u "Salud"); SStr (u "A favor"); SStr (u "Pregunta 1"); SNaN]] in
  let doc := document_of (generate_from_new_structure peru_pres_2026 sheet) in
  category doc = output_key peru_pres_2026
  /\ NoDup (keys (entities doc))
  /\ (forall h, In h (keys (entities doc))
                <-> In h (hd [] (head peru_pres_2026 sheet))
                    /\ h <> Tema /\ h <> Statement)
  /\ (forall h e,
         In (h, e) (entities doc) ->
         entry_name e
         = PeruPres.of_option (fst (PeruPres.parse_candidate_header h))
         /\ entry_party e
            = Some (PeruPres.of_option
                      (snd (PeruPres.parse_candidate_header h)))).
Proof.
  intros sheet doc.
  apply (X9_document_entities peru_pres_2026 sheet doc).
  vm_compute. reflexivity.
Defined.

(** X10. In the document of a run that succeeds no entity has two
    records under one identifier, and none has more records than the
    sheet has data rows within the cap of the script: at most 14, 8, 20
    and 8. *)
Theorem X10_votes_bound (v : variant) (t : table) (doc : document)
        (h : scalar) (e : entry) :
  generate_from_new_structure v t = Ok doc ->
  In (h, e) (entities doc) ->
  NoDup (keys (entry_votes e))
  /\ (List.length (entry_votes e) <= row_cap v - 1)%nat
  /\ (List.length (entry_votes e) <= List.length t - 1)%nat
  /\ (row_cap chile_partidos_2025 - 1 = 14)%nat
  /\ (row_cap peru_partidos_2026 - 1 = 8)%nat
  /\ (row_cap chile_presidencial_2025 - 1 = 20)%nat
  /\ (row_cap peru_pres_2026 - 1 = 8)%nat.
Proof.
  rewrite generate_reshape. intros H Hin.
  destruct (reshape_spec _ _ _ _ _ _ _ _ H)
    as [columns [data_frame [headers [Hhead [_ [_ [_ [_ [_ [Hent _]]]]]]]]]].
  rewrite Hent in Hin. apply in_map_iff in Hin as [c [Heq Hc]].
  injection Heq as <- <-. cbn [entry_votes].
  split; [apply NoDup_votes_after; constructor|].
  pose proof (length_votes_after (clean_text v) (parse_cell_combined v)
                (enforced_defaults v) columns c data_frame []) as Hlen.
  pose proof (f_equal (@List.length row) Hhead) as Hl.
  rewrite head_row_cap, length_firstn in Hl. simpl in Hl, Hlen.
  repeat split; try reflexivity; lia.
Qed.

Lemma X10_votes_bound_witness :
  let header := [Tema; Statement; SStr (u "Partido A")] in
  let r n := [SStr (u "Tema"); SStr n; SStr (u "1")] in
  let sheet :=
      header :: map r [u "a"; u "b"; u "c"; u "d"; u "e"; u "f"; u "g"; u "h";
                       u "i"; u "j"] in
  let doc := document_of (generate_from_new_structure peru_partidos_2026 sheet) in
  let e :=
      snd (hd (SNone, {| entry_name := SNone; entry_party := None;
                         entry_votes := [] |}) (entities doc)) in
  NoDup (keys (entry_votes e))
  /\ (List.length (entry_votes e) <= row_cap peru_partidos_2026 - 1)%nat
  /\ (List.length (entry_votes e) <= List.length sheet - 1)%nat
  /\ (row_cap chile_partidos_2025 - 1 = 14)%nat
  /\ (row_cap peru_partidos_2026 - 1 = 8)%nat
  /\ (row_cap chile_presidencial_2025 - 1 = 20)%nat
  /\ (row_cap peru_pres_2026 - 1 = 8)%nat.
Proof.
  intros header r sheet doc e.
  apply (X10_votes_bound peru_partidos_2026 sheet doc (SStr (u "Partido A")) e).
  - vm_compute. reflexivity.
  - vm_compute. left. reflexivity.
Defined.

Lemma votes_after_no_statement (clean : pyval -> result (option str))
      (parse : pyval -> result triple) (enforced : triple)
      (columns : list scalar) (column : scalar) (rows : list row)
      (d : dict str VoteRecord) :
  (forall r, In r rows -> row_question clean columns r = Ok None) ->
  votes_after clean parse enforced columns rows column d = d.
Proof.
  induction rows as [|r rows IH]; intros H; [reflexivity|].
  simpl. rewrite (H r (or_introl eq_refl)). apply IH.
  intros r' Hin. apply H. now right.
Qed.

(* ===================================================================== *)
(** * Further properties: candidate headers *)
(* ===================================================================== *)

Lemma re_match_matched (p : list item) :
  forall s gs, re_match p s = Some gs -> matched p s gs.
Proof.
  induction p as [|it p IH]; [intros s gs H; simpl in *; congruence|].
  destruct it as [k|k|c|].
  - induction s as [|x s IHs]; intros gs; rewrite re_match_lazy.
    + destruct (re_match p []) as [gs'|] eqn:E; [|discriminate].
      intros H. injection H as <-. exists [], gs', []. auto.
    + destruct (re_match p (x :: s)) as [gs'|] eqn:E.
      * intros H. injection H as <-. exists [], gs', (x :: s). auto.
      * destruct (in_class k x) eqn:K; [|discriminate].
        destruct (re_match (LazyGroup k :: p) s) as [[|g gs']|] eqn:E';
          try discriminate.
        intros H. injection H as <-.
        destruct (IHs _ eq_refl) as [g0 [gs0 [s0 [Hg [Hs [Hk Hm]]]]]].
        injection Hg as <- <-. subst s.
        exists (x :: g), gs', s0. simpl. rewrite K. auto.
  - induction s as [|x s IHs]; intros gs; rewrite re_match_greedy.
    + intros H. exists [], []. auto.
    + assert (Hskip : re_match p (x :: s) = Some gs ->
                      matched (Greedy k :: p) (x :: s) gs).
      { intros H. exists [], (x :: s). auto. }
      destruct (in_class k x) eqn:K; [|exact Hskip].
      destruct (re_match (Greedy k :: p) s) as [gs'|] eqn:E'; [|exact Hskip].
      intros H. injection H as <-.
      destruct (IHs _ eq_refl) as [w [s0 [Hs [Hk Hm]]]]. subst s.
      exists (x :: w), s0. simpl. rewrite K. auto.
  - intros s gs. rewrite re_match_lit. destruct s as [|x s]; [discriminate|].
    destruct (N.eqb_spec x c) as [->|Hne]; [|discriminate].
    intros H. exists s. auto.
  - intros s gs. rewrite re_match_end.
    destruct (at_end s) eqn:E; [|discriminate]. intros H. split; auto.
Qed.

Lemma at_end_space (s : str) : at_end s = true -> forallb isspace s = true.
Proof.
  destruct s as [|c [|d s]]; try discriminate; [reflexivity|].
  simpl. intros H. apply N.eqb_eq in H. now subst.
Qed.

Lemma rstrip_no_blank_tail (a b : str) :
  rstrip (a ++ b) = a ++ b -> forallb isspace b = true -> b = [].
Proof.
  intros H Hb. induction a as [|c a IH].
  - simpl in H. apply rstrip_nil in Hb. congruence.
  - apply IH. simpl in H. now apply rstrip_fixed_tail in H.
Qed.

Lemma dot_run (g : str) : forallb (in_class Dot) g = true -> ~ In 10 g.
Proof.
  intros H Hin. rewrite forallb_forall in H. specialize (H 10 Hin).
  discriminate.
Qed.

(** The groups of a match of the header pattern on a text without white
    space at its end. *)
Lemma header_pattern_groups (s : str) (gs : list str) :
  rstrip s = s ->
  re_match header_pattern s = Some gs ->
  exists g1 w g2,
    gs = [g1; g2]
    /\ s = g1 ++ w ++ 40 :: g2 ++ [41]
    /\ forallb isspace w = true
    /\ ~ In 10 g1 /\ ~ In 10 g2.
Proof.
  intros Hs H. apply re_match_matched in H.
  destruct H as [g1 [gs1 [s1 [-> [E1 [D1 H]]]]]].
  destruct H as [w [s2 [E2 [W H]]]].
  destruct H as [s3 [E3 H]].
  destruct H as [g2 [gs2 [s4 [-> [E4 [D2 H]]]]]].
  destruct H as [s5 [E5 H]].
  destruct H as [w2 [s6 [E6 [W2 [Hend ->]]]]].
  exists g1, w, g2.
  assert (Htail : s5 = []).
  { apply (rstrip_no_blank_tail (g1 ++ w ++ 40 :: g2 ++ [41])).
    - replace ((g1 ++ w ++ 40 :: g2 ++ [41]) ++ s5) with s; [exact Hs|].
      subst. rewrite <- !app_assoc. simpl. now rewrite <- app_assoc.
    - subst s5. rewrite forallb_app. apply andb_true_iff. split.
      + exact W2.
      + now apply at_end_space. }
  subst. rewrite Htail. split; [reflexivity|]. split; [reflexivity|].
  split; [exact W|]. split; now apply dot_run.
Qed.

Lemma peru_pres_header_reading (header_str : str) :
  header_reading PeruPres.parse_candidate_header header_str.
Proof.
  unfold header_reading, PeruPres.parse_candidate_header. cbn [py_str].
  destruct (re_match header_pattern (strip header_str)) as [gs|] eqn:E.
  - apply header_pattern_groups in E; [|apply rstrip_idem].
    destruct E as [g1 [w [g2 [-> [Hs [Hw [H1 H2]]]]]]].
    exists (strip g1). cbn [fst snd]. split; [reflexivity|].
    split; [apply strip_idem|]. split; [apply strip_idem|].
    exists g1, w, g2. now repeat split.
  - exists (strip header_str). cbn [fst snd]. split; [reflexivity|].
    split; [apply strip_idem|reflexivity].
Qed.

(** X13. Whatever the text of a header, [parse_candidate_header] gives a
    name, and the name is trimmed.  When it gives no party the name is
    the whole trimmed header.  When it gives a party, the trimmed header
    is a text, white space, and a parenthesized text that closes the
    header, neither text with a line feed; name and party are their
    trimmed forms.  Both candidate scripts. *)
Theorem X13_candidate_header_reading (header_str : str) :
  header_reading PeruPres.parse_candidate_header header_str
  /\ header_reading ChilePresidencial.parse_candidate_header header_str.
Proof.
  split; apply peru_pres_header_reading.
Qed.

(* ===================================================================== *)
(** * Further properties: the scripts side by side *)
(* ===================================================================== *)

Lemma parse_cell_scalar_eq (v : variant) (x : scalar) :
  parse_cell_combined v (PScalar x)
  = match clean_scalar x with
    | None => Ok missing_cell_default
    | Some raw =>
      Ok (vote_mapping v (cleaned_segment (split delimiter raw 2) 0),
          cleaned_segment (split delimiter raw 2) 1,
          cleaned_segment (split delimiter raw 2) 2)
    end.
Proof.
  rewrite parse_cell_combined_with.
  destruct (clean_scalar x) as [raw|] eqn:E.
  - apply parse_cell_with_present. now rewrite clean_text_scalar, E.
  - apply parse_cell_with_absent. now rewrite clean_text_scalar, E.
Qed.

Lemma party_vote_in_peru_pres (text : option str) (f : float) :
  vote_mapping peru_partidos_2026 text = Some (VNum f) ->
  vote_mapping peru_pres_2026 text = Some (VNum f).
Proof.
  destruct text as [text|]; [|discriminate]. cbn [vote_mapping].
  rewrite peru_partidos_numeric.
  unfold PeruPres.map_vote_text_to_value.
  destruct (strip text) as [|c r]; [discriminate|].
  destruct (py_float (replace_comma (c :: r))); [trivial|discriminate].
Qed.

(** X14. On a cell that is not a Series the four scripts read the same
    comment and the same source.  The two party scripts read the same
    vote; when it is a number the Peruvian candidate script reads this
    number too; and where the Chilean candidate script keeps a position
    text, the Peruvian one gives what its mapper makes of this text. *)
Theorem X14_scripts_side_by_side (x : scalar) :
  ChilePartidos.parse_cell_combined (PScalar x)
  = PeruPartidos.parse_cell_combined (PScalar x)
  /\ (forall v1 v2 vote1 vote2 comment1 comment2 source1 source2,
         parse_cell_combined v1 (PScalar x) = Ok (vote1, comment1, source1) ->
         parse_cell_combined v2 (PScalar x) = Ok (vote2, comment2, source2) ->
         comment1 = comment2 /\ source1 = source2)
  /\ (forall f comment_value source_value,
         PeruPartidos.parse_cell_combined (PScalar x)
         = Ok (Some (VNum f), comment_value, source_value) ->
         PeruPres.parse_cell_combined (PScalar x)
         = Ok (Some (VNum f), comment_value, source_value))
  /\ (forall text comment_value source_value,
         ChilePresidencial.parse_cell_combined (PScalar x)
         = Ok (Some (VText text), comment_value, source_value) ->
         PeruPres.parse_cell_combined (PScalar x)
         = Ok (option_map VNum (PeruPres.map_vote_text_to_value (Some text)),
               comment_value, source_value)).
Proof.
  change ChilePartidos.parse_cell_combined
    with (parse_cell_combined chile_partidos_2025).
  change PeruPartidos.parse_cell_combined
    with (parse_cell_combined peru_partidos_2026).
  change ChilePresidencial.parse_cell_combined
    with (parse_cell_combined chile_presidencial_2025).
  change PeruPres.parse_cell_combined
    with (parse_cell_combined peru_pres_2026).
  split; [|split; [|split]].
  - rewrite !parse_cell_scalar_eq.
    destruct (clean_scalar x) as [raw|]; [|reflexivity].
    cbn [vote_mapping].
    destruct (cleaned_segment (split delimiter raw 2) 0) as [t|]; [|reflexivity].
    now rewrite chile_partidos_numeric, peru_partidos_numeric.
  - intros v1 v2 vote1 vote2 comment1 comment2 source1 source2.
    rewrite !parse_cell_scalar_eq.
    destruct (clean_scalar x) as [raw|]; intros H1 H2;
      injection H1 as _ <- <-; injection H2 as _ <- <-; now split.
  - intros f comment_value source_value. rewrite !parse_cell_scalar_eq.
    destruct (clean_scalar x) as [raw|]; [|trivial].
    remember (split delimiter raw 2) as parts eqn:Hparts.
    intros H. injection H as Hv <- <-.
    now rewrite (party_vote_in_peru_pres _ _ Hv).
  - intros text comment_value source_value. rewrite !parse_cell_scalar_eq.
    destruct (clean_scalar x) as [raw|]; [|discriminate].
    remember (split delimiter raw 2) as parts eqn:Hparts.
    intros H. injection H as Hv <- <-. cbn [vote_mapping] in *.
    destruct (cleaned_segment parts 0) as [t|]; [|discriminate].
    cbn [option_map] in Hv. injection Hv as ->. reflexivity.
Qed.

Lemma X14_scripts_side_by_side_witness :
  let x := SStr (u " 0,5 *** a medias *** http://x ") in
  let y := SStr (u "En contra***no***") in
  (parse_cell_combined peru_partidos_2026 (PScalar x)
   = Ok (Some (VNum float_0_5), Some (u "a medias"), Some (u "http://x"))
   /\ PeruPres.parse_cell_combined (PScalar x)
      = Ok (Some (VNum float_0_5), Some (u "a medias"), Some (u "http://x")))
  /\ (ChilePresidencial.parse_cell_combined (PScalar y)
      = Ok (Some (VText (u "En contra")), Some (u "no"), None)
      /\ PeruPres.parse_cell_combined (PScalar y)
         = Ok (option_map VNum
                 (PeruPres.map_vote_text_to_value (Some (u "En contra"))),
               Some (u "no"), None)).
Proof.
  intros x y. split.
  - assert (H : PeruPartidos.parse_cell_combined (PScalar x)
                = Ok (Some (VNum float_0_5), Some (u "a medias"),
                      Some (u "http://x")))
      by (vm_compute; reflexivity).
    split; [exact H|].
    exact (proj1 (proj2 (proj2 (X14_scripts_side_by_side x))) _ _ _ H).
  - assert (H : ChilePresidencial.parse_cell_combined (PScalar y)
                = Ok (Some (VText (u "En contra")), Some (u "no"), None))
      by (vm_compute; reflexivity).
    split; [exact H|].
    exact (proj2 (proj2 (proj2 (X14_scripts_side_by_side y))) _ _ _ H).
Defined.

(** X15. A stored vote is a text in the Chilean candidate script only.
    There a stored vote is a number only when the number is 0.5, with the
    placeholder comment and no source: the record of a cell that is
    missing or reduces to nothing.  In the other three scripts every
    stored vote is a number. *)
Theorem X15_vote_kinds (v : variant) (topic_text : option str)
        (statement_text : str) (cell_value : pyval) (rec : VoteRecord) :
  vote_record v topic_text statement_text cell_value = Ok rec ->
  (forall text, vote rec = Some (VText text) -> v = chile_presidencial_2025)
  /\ (forall f,
         v = chile_presidencial_2025 -> vote rec = Some (VNum f) ->
         f = float_0_5
         /\ comment rec = Some ChilePresidencial.MISSING_COMMENT_DEFAULT
         /\ source rec = None)
  /\ (v <> chile_presidencial_2025 ->
      vote rec = None \/ exists f, vote rec = Some (VNum f)).
Proof.
  unfold vote_record, cell_record. rewrite parse_cell_combined_with.
  destruct (clean_text v cell_value) as [[raw|]|] eqn:E.
  - rewrite (parse_cell_with_present _ _ _ _ E). cbn [bind].
    set (seg0 := cleaned_segment (split delimiter raw 2) 0).
    set (seg1 := cleaned_segment (split delimiter raw 2) 1).
    set (seg2 := cleaned_segment (split delimiter raw 2) 2).
    destruct v; cbn [vote_mapping enforced_defaults];
      match goal with
      | |- context [option_map VNum ?m] => destruct m as [f0|]
      | |- context [option_map VText ?m] => destruct m as [f0|]
      end; cbn [option_map]; destruct seg1, seg2;
        intros H; injection H as <-; cbn [vote comment source];
          (split; [intros text Ht; congruence || reflexivity|]);
          (split; [intros f Hv Hf; try discriminate;
                   injection Hf as <-; now repeat split|]);
          intros Hne; try congruence; eauto.
  - rewrite (parse_cell_with_absent _ _ _ E). cbn.
    intros H. injection H as <-. cbn.
    split; [discriminate|]. split.
    + intros f _ Hf. injection Hf as <-. now repeat split.
    + eauto.
  - unfold parse_cell_with. rewrite E. discriminate.
Qed.

Lemma X15_vote_kinds_witness :
  let rec :=
      {| tema := Some (u "Salud"); question := u "Pregunta";
         vote := Some (VNum float_0_5);
         comment := Some ChilePresidencial.MISSING_COMMENT_DEFAULT;
         source := None |} in
  (forall text, vote rec = Some (VText text) ->
                chile_presidencial_2025 = chile_presidencial_2025)
  /\ (forall f,
         chile_presidencial_2025 = chile_presidencial_2025 ->
         vote rec = Some (VNum f) ->
         f = float_0_5
         /\ comment rec = Some ChilePresidencial.MISSING_COMMENT_DEFAULT
         /\ source rec = None)
  /\ (chile_presidencial_2025 <> chile_presidencial_2025 ->
      vote rec = None \/ exists f, vote rec = Some (VNum f)).
Proof.
  intros rec.
  apply (X15_vote_kinds chile_presidencial_2025 (Some (u "Salud"))
           (u "Pregunta") (PScalar (SStr (u " *** "))) rec).
  vm_compute. reflexivity.
Defined.

(* ===================================================================== *)
(** * Further properties: order and exceptions *)
(* ===================================================================== *)

Lemma existsb_scalar_In (c : scalar) (ks : list scalar) :
  existsb (scalar_eqb c) ks = true <-> In c ks.
Proof.
  rewrite existsb_exists. split.
  - intros [x [Hin Hx]]. apply scalar_eqb_eq in Hx. now subst.
  - intros Hin. exists c. split; [exact Hin|apply scalar_eqb_refl].
Qed.

Lemma keys_init_info_acc (desc : scalar -> scalar * option scalar)
      (entity_columns : list scalar) :
  forall acc,
    keys (fold_left
            (fun info column =>
               dict_set scalar_eqb column (new_entity desc column) info)
            entity_columns acc)
    = distinct_headers entity_columns (keys acc).
Proof.
  induction entity_columns as [|c cs IH]; intros acc; [reflexivity|].
  simpl. rewrite IH. f_equal.
  destruct (existsb (scalar_eqb c) (keys acc)) eqn:E.
  - apply keys_dict_set_in; [apply scalar_eqb_eq|]. now apply existsb_scalar_In.
  - apply keys_dict_set_new; [apply scalar_eqb_eq|].
    intros Hin. apply existsb_scalar_In in Hin. congruence.
Qed.

(** The entries of the document come in the order of [init_info]. *)
Lemma reshape_headers (hd_rows : table -> table)
      (clean : pyval -> result (option str))
      (parse : pyval -> result triple) (enforced : triple)
      (desc : scalar -> scalar * option scalar) (key : str)
      (t : table) (doc : document) :
  reshape hd_rows clean parse enforced desc key t = Ok doc ->
  keys (entities doc)
  = distinct_headers (filter is_entity_column (hd [] (hd_rows t))) [].
Proof.
  unfold reshape. destruct (hd_rows t) as [|columns data_frame]; [discriminate|].
  destruct (has_column columns Statement) eqn:Hs; [|discriminate].
  destruct (has_column columns Tema) eqn:Ht; [|discriminate]. simpl.
  set (entity_columns := filter is_entity_column columns).
  destruct (init_info_spec desc entity_columns) as [Hwf [Hnew Hkeys]].
  destruct (each_row clean parse enforced columns entity_columns data_frame
                     (init_info desc entity_columns)) as [info|] eqn:Hrows;
    [|discriminate].
  simpl. intros H. injection H as <-.
  destruct (each_row_spec clean parse enforced columns entity_columns data_frame
                          _ _ Hwf (fun k => proj1 (Hkeys k)) Hrows)
    as [Hinfo _].
  change (keys (entities (combined_output key info))
          = distinct_headers entity_columns (keys (@nil (scalar * entity)))).
  rewrite <- (keys_init_info_acc desc entity_columns []).
  fold (init_info desc entity_columns).
  destruct (well_keyed_map
              (fun kv => votes_after clean parse enforced columns data_frame
                                     (fst kv) (votes (snd kv)))
              (init_info desc entity_columns) Hwf) as [Hwf' Hk'].
  rewrite <- Hinfo in Hwf', Hk'.
  rewrite combined_output_spec by exact Hwf'.
  rewrite <- Hk'. unfold keys. now rewrite map_map.
Qed.

(** X16. The order of the document of a run that succeeds: the entries
    come in the order in which their headers first occur in the header
    row, and in every entry the records come in the order in which
    their identifiers first occur in the data rows. *)
Theorem X16_document_order (v : variant) (t : table) (doc : document) :
  generate_from_new_structure v t = Ok doc ->
  keys (entities doc)
  = distinct_headers (filter is_entity_column (hd [] (head v t))) []
  /\ forall h e,
      In (h, e) (entities doc) ->
      keys (entry_votes e)
      = question_keys (clean_text v) (hd [] (head v t)) (tl (head v t)) [].
Proof.
  rewrite generate_reshape. intros H.
  split; [exact (reshape_headers _ _ _ _ _ _ _ _ H)|].
  destruct (reshape_spec _ _ _ _ _ _ _ _ H)
    as [columns [data_frame [headers [Hhead [_ [_ [_ [_ [_ [Hent [_ Hrec]]]]]]]]]]].
  rewrite Hhead. cbn [hd tl]. intros h e Hin. rewrite Hent in Hin.
  apply in_map_iff in Hin as [c [Heq Hc]]. injection Heq as <- <-.
  cbn [entry_votes]. apply keys_votes_after.
  intros r topic statement Hr Hq. now apply (Hrec r topic statement c).
Qed.

Lemma X16_document_order_witness :
  let sheet :=
      [[SStr (u "Partido B"); Tema; SStr (u "Partido A"); Statement;
        SStr (u "Partido B")];
       [SNaN; SStr (u "Salud"); SStr (u "1"); SStr (u "Pregunta 2"); SNaN];
       [SNaN; SStr (u "Salud"); SStr (u "1"); SStr (u "Pregunta 1"); SNaN];
       [SNaN; SStr (u "Salud"); SStr (u "0"); SStr (u "Pregunta 2"); SNaN]] in
  let doc := document_of (generate_from_new_structure chile_partidos_2025 sheet) in
  (keys (entities doc)
   = distinct_headers
       (filter is_entity_column (hd [] (head chile_partidos_2025 sheet))) []
   /\ forall h e,
       In (h, e) (entities doc) ->
       keys (entry_votes e)
       = question_keys (clean_text chile_partidos_2025)
                       (hd [] (head chile_partidos_2025 sheet))
                       (tl (head chile_partidos_2025 sheet)) [])
  /\ keys (entities doc) = [SStr (u "Partido B"); SStr (u "Partido A")]
  /\ question_keys (clean_text chile_partidos_2025)
                   (hd [] (head chile_partidos_2025 sheet))
                   (tl (head chile_partidos_2025 sheet)) []
     = [u "Salud: Pregunta 2"; u "Salud: Pregunta 1"].
Proof.
  intros sheet doc. split.
  - apply (X16_document_order chile_partidos_2025 sheet doc).
    vm_compute. reflexivity.
  - split; vm_compute; reflexivity.
Defined.

Lemma clean_text_raises (v : variant) (x : pyval) (e : exn) :
  clean_text v x = Raise e -> e = AmbiguousTruth.
Proof.
  destruct x as [x|xs]; [rewrite clean_text_scalar; discriminate|].
  destruct v; cbn [clean_text]; try (intros H; injection H as <-; reflexivity).
  intros H. destruct (chile_partidos_clean_total (PSeries xs)) as [o Ho].
  rewrite Ho in H. discriminate H.
Qed.

Lemma parse_cell_raises (v : variant) (x : pyval) (e : exn) :
  parse_cell_combined v x = Raise e -> e = AmbiguousTruth.
Proof.
  rewrite parse_cell_combined_with. unfold parse_cell_with.
  destruct (clean_text v x) as [[raw|]|e'] eqn:E; cbn [bind].
  - rewrite !clean_part_scalar. discriminate.
  - discriminate.
  - intros H. injection H as <-. now apply clean_text_raises in E.
Qed.

Section Outcomes.
Variable clean : pyval -> result (option str).
Variable parse : pyval -> result triple.
Variable enforced : triple.
Variable columns : list scalar.
Hypothesis clean_raises : forall x e, clean x = Raise e -> e = AmbiguousTruth.
Hypothesis parse_raises : forall x e, parse x = Raise e -> e = AmbiguousTruth.

(** The loop over the entity columns keeps the keys, and raises for a
    Series only: the entry of a column is always found. *)
Lemma each_column_outcome (r : row) (t : option str) (s : str)
      (todo : list scalar) :
  forall info,
    (forall c, In c todo -> In c (keys info)) ->
    match each_column parse enforced columns r t s todo info with
    | Ok info' => keys info' = keys info
    | Raise e => e = AmbiguousTruth
    end.
Proof.
  induction todo as [|c todo IH]; intros info Hsub; simpl; [reflexivity|].
  destruct (cell_record parse enforced t s (at_ columns r c)) as [rec|e] eqn:Hc.
  - cbn [bind].
    destruct (store_total c (question_identifier t s) rec info
                          (Hsub c (or_introl eq_refl))) as [info1 [-> Hk]].
    cbn [bind]. specialize (IH info1).
    destruct (each_column parse enforced columns r t s todo info1).
    + rewrite IH; [exact Hk|]. intros c' Hin. rewrite Hk. apply Hsub. now right.
    + apply IH. intros c' Hin. rewrite Hk. apply Hsub. now right.
  - cbn [bind]. unfold cell_record in Hc.
    destruct (parse (at_ columns r c)) as [[[a b] d]|e'] eqn:Hp.
    + cbn [bind] in Hc. destruct enforced as [[x y] z].
      destruct a, b, d; discriminate.
    + cbn [bind] in Hc. injection Hc as <-. now apply parse_raises in Hp.
Qed.

Lemma each_row_outcome (entity_columns : list scalar) (rows : list row) :
  forall info e,
    (forall c, In c entity_columns -> In c (keys info)) ->
    each_row clean parse enforced columns entity_columns rows info = Raise e ->
    e = AmbiguousTruth.
Proof.
  induction rows as [|r rows IH]; intros info e Hsub; [discriminate|].
  simpl.
  destruct (clean (at_ columns r Tema)) as [t|e1] eqn:E1; cbn [bind];
    [|intros H; injection H as <-; now apply clean_raises in E1].
  destruct (clean (at_ columns r Statement)) as [[s|]|e2] eqn:E2; cbn [bind].
  - pose proof (each_column_outcome r t s entity_columns info Hsub) as Hc.
    destruct (each_column parse enforced columns r t s entity_columns info)
      as [info1|e3]; cbn [bind].
    + apply IH. intros c Hin. rewrite Hc. now apply Hsub.
    + intros H. injection H as <-. exact Hc.
  - now apply IH.
  - intros H. injection H as <-. now apply clean_raises in E2.
Qed.
End Outcomes.

Lemma row_cap_positive (v : variant) : exists n, row_cap v = S n.
Proof. destruct v; eexists; reflexivity. Qed.

Lemma head_cons (v : variant) (columns : row) (rest : table) :
  exists data_frame, head v (columns :: rest) = columns :: data_frame.
Proof.
  rewrite head_row_cap. destruct (row_cap_positive v) as [n ->].
  simpl. eauto.
Qed.

(** X17. The exceptions of a run.  It raises for an empty sheet exactly
    when the sheet has no row at all, and for missing columns exactly
    when its first row lacks ["Statement"] or ["Tema"].  Any other
    exception is the one of a Series, which needs a label that occurs
    twice in the first row and a script other than the Chilean party
    script.  The entry of an entity column is always found: no run
    raises a [KeyError]. *)
Theorem X17_exceptions (v : variant) (t : table) (e : exn) :
  generate_from_new_structure v t = Raise e ->
  match e with
  | EmptySheet => t = []
  | MissingColumns =>
    exists columns rest,
      t = columns :: rest
      /\ (has_column columns Statement = false
          \/ has_column columns Tema = false)
  | AmbiguousTruth =>
    v <> chile_partidos_2025 /\ ~ NoDup (hd [] t)
    /\ has_column (hd [] t) Statement = true
    /\ has_column (hd [] t) Tema = true
  | KeyError => False
  end.
Proof.
  intros H.
  assert (Hloop :
            forall columns data_frame,
              head v t = columns :: data_frame ->
              has_column columns Statement = true ->
              has_column columns Tema = true ->
              e = AmbiguousTruth).
  { intros columns data_frame Hhead Hs Ht.
    rewrite generate_reshape in H. unfold reshape in H.
    rewrite Hhead, Hs, Ht in H. cbn [negb orb] in H.
    destruct (each_row (clean_text v) (parse_cell_combined v)
                (enforced_defaults v) columns
                (filter is_entity_column columns) data_frame
                (init_info (describe v) (filter is_entity_column columns)))
      as [info|e'] eqn:Hrows; [discriminate|].
    cbn [bind] in H. injection H as <-.
    apply (each_row_outcome (clean_text v) (parse_cell_combined v)
             (enforced_defaults v) columns
             (clean_text_raises v) (parse_cell_raises v)
             _ _ _ _ (fun c => proj2 (proj2 (proj2 (init_info_spec _ _)) c))
             Hrows). }
  destruct t as [|columns rest].
  - destruct v; vm_compute in H; injection H as <-; reflexivity.
  - destruct (head_cons v columns rest) as [data_frame Hhead].
    destruct (has_column columns Statement) eqn:Hs;
      [destruct (has_column columns Tema) eqn:Ht|].
    + rewrite (Hloop columns data_frame Hhead Hs Ht) in *.
      cbn [hd]. split; [|split; [|now split]].
      * intros ->.
        assert (Hf : fatal_condition chile_partidos_2025 (columns :: rest) = true)
          by (apply chile_partidos_fatal_iff; eauto).
        unfold fatal_condition in Hf. rewrite Hhead, Hs, Ht in Hf.
        discriminate.
      * intros Hnd.
        assert (Hf : fatal_condition v (columns :: rest) = true).
        { apply unique_labels_fatal_iff; [now rewrite Hhead|eauto]. }
        unfold fatal_condition in Hf. rewrite Hhead, Hs, Ht in Hf.
        discriminate.
    + rewrite generate_reshape in H. unfold reshape in H.
      rewrite Hhead, Hs, Ht in H. cbn in H. injection H as <-.
      exists columns, rest. split; [reflexivity|now right].
    + rewrite generate_reshape in H. unfold reshape in H.
      rewrite Hhead, Hs in H. cbn in H. injection H as <-.
      exists columns, rest. split; [reflexivity|now left].
Qed.

Lemma X17_exceptions_witness :
  let sheet :=
      [[Tema; Statement; SStr (u "Partido A"); SStr (u "Partido A")];
       [SStr (u "Salud"); SStr (u "Pregunta 1"); SStr (u "1"); SStr (u "0")]] in
  (peru_partidos_2026 <> chile_partidos_2025 /\ ~ NoDup (hd [] sheet)
   /\ has_column (hd [] sheet) Statement = true
   /\ has_column (hd [] sheet) Tema = true)
  /\ (exists columns rest,
         [[Tema; SStr (u "Partido A")]] = columns :: rest
         /\ (has_column columns Statement = false
             \/ has_column columns Tema = false)).
Proof.
  intros sheet. split.
  - apply (X17_exceptions peru_partidos_2026 sheet AmbiguousTruth).
    vm_compute. reflexivity.
  - apply (X17_exceptions chile_presidencial_2025 [[Tema; SStr (u "Partido A")]]
             MissingColumns).
    vm_compute. reflexivity.
Defined.

(* ===================================================================== *)
(** * Further properties: rows without statement *)
(* ===================================================================== *)

(** Under a label that at most one column carries a cell is a scalar;
    under a label that two columns carry it is a Series. *)
Lemma at_once_scalar (columns : list scalar) (r : row) (label : scalar) :
  (count_occ scalar_eq_dec columns label <= 1)%nat ->
  exists x, at_ columns r label = PScalar x.
Proof.
  intros H. pose proof (length_cells_at columns label r) as Hl.
  unfold at_. destruct (cells_at columns r label) as [|x [|y xs]]; eauto.
  simpl in Hl. lia.
Qed.

Lemma at_twice_series (columns : list scalar) (r : row) (label : scalar) :
  (2 <= count_occ scalar_eq_dec columns label)%nat ->
  exists xs, at_ columns r label = PSeries xs.
Proof.
  intros H. pose proof (length_cells_at columns label r) as Hl.
  unfold at_. destruct (cells_at columns r label) as [|x [|y xs]]; eauto;
    simpl in Hl; lia.
Qed.

Lemma topic_cleans (v : variant) (columns : list scalar) (r : row) :
  v = chile_partidos_2025
  \/ (count_occ scalar_eq_dec columns Tema <= 1)%nat ->
  exists o, clean_text v (at_ columns r Tema) = Ok o.
Proof.
  intros [-> |H].
  - apply chile_partidos_clean_total.
  - destruct (at_once_scalar columns r Tema H) as [x ->].
    rewrite clean_text_scalar. eauto.
Qed.

Lemma row_question_None (v : variant) (columns : list scalar) (r : row) :
  (exists o, clean_text v (at_ columns r Tema) = Ok o) ->
  clean_text v (at_ columns r Statement) = Ok None ->
  row_question (clean_text v) columns r = Ok None.
Proof.
  intros [o Ho] Hs. unfold row_question. now rewrite Ho, Hs.
Qed.

(** With the topic label on two columns, the first data row raises in
    the scripts that do not clean a Series. *)
Lemma repeated_topic_raises (v : variant) (columns entity_columns : list scalar)
      (r : row) (rows : list row) (info : dict scalar entity) :
  v <> chile_partidos_2025 ->
  (2 <= count_occ scalar_eq_dec columns Tema)%nat ->
  each_row (clean_text v) (parse_cell_combined v) (enforced_defaults v)
           columns entity_columns (r :: rows) info
  = Raise AmbiguousTruth.
Proof.
  intros Hv H. rewrite each_row_cons. unfold row_question.
  destruct (at_twice_series columns r Tema H) as [xs ->].
  destruct v; try reflexivity. congruence.
Qed.

Lemma repeated_label_present (columns : list scalar) (label : scalar) :
  (1 <= count_occ scalar_eq_dec columns label)%nat ->
  has_column columns label = true.
Proof.
  intros H. unfold has_column. apply existsb_scalar_In.
  apply (count_occ_In scalar_eq_dec). lia.
Qed.

(** X11. A data row whose Statement cell cleans to [None], on a sheet
    within the cap of the script.  When the label ["Tema"] stands on at
    most one column, or the script is the Chilean party script, the row
    is skipped whatever its other cells hold: the run gives what it
    gives without the row, document or exception.  In the other three
    scripts, when ["Tema"] stands on two columns, the topic is cleaned
    before the row can be skipped and the run raises (for the missing
    column when ["Statement"] is not a label). *)
Theorem X11_row_without_statement (v : variant) (columns : list scalar)
        (pre post : list row) (r : row) :
  (List.length (columns :: pre ++ r :: post) <= row_cap v)%nat ->
  clean_text v (at_ columns r Statement) = Ok None ->
  (v = chile_partidos_2025
   \/ (count_occ scalar_eq_dec columns Tema <= 1)%nat ->
   generate_from_new_structure v (columns :: pre ++ r :: post)
   = generate_from_new_structure v (columns :: pre ++ post))
  /\ (v <> chile_partidos_2025 ->
      (2 <= count_occ scalar_eq_dec columns Tema)%nat ->
      generate_from_new_structure v (columns :: pre ++ r :: post)
      = Raise (if has_column columns Statement
               then AmbiguousTruth else MissingColumns)).
Proof.
  intros Hlen Hs. split.
  - intros Ht.
    pose proof (row_question_None v columns r (topic_cleans v columns r Ht) Hs)
      as Hq.
    rewrite !generate_reshape. unfold reshape.
    rewrite !head_row_cap, !firstn_all2.
    + now rewrite (each_row_skip _ _ _ _ _ _ _ _ _ Hq).
    + simpl in *. rewrite length_app in *. simpl in Hlen. lia.
    + exact Hlen.
  - intros Hv Ht. rewrite generate_reshape. unfold reshape.
    rewrite head_row_cap, firstn_all2 by exact Hlen.
    destruct (has_column columns Statement); [|reflexivity].
    rewrite (repeated_label_present columns Tema) by lia. cbn [negb orb].
    destruct pre as [|r0 pre]; cbn [app];
      now rewrite (repeated_topic_raises v columns _ _ _ _ Hv Ht).
Qed.

Lemma X11_row_without_statement_witness :
  let columns := [Tema; Statement; SStr (u "Ana Ruiz (Partido X)")] in
  let twice := [Tema; Tema; Statement; SStr (u "Ana Ruiz (Partido X)")] in
  let r1 := [SStr (u "Salud"); SStr (u "Pregunta"); SStr (u "A favor")] in
  let r2 := [SStr (u "Salud"); SStr (u "   "); SStr (u "En contra***no")] in
  let r3 := [SStr (u "Salud"); SStr (u "Otra"); SNaN] in
  let r4 := [SStr (u "Salud"); SStr (u "Salud"); SNaN; SStr (u "A favor")] in
  generate_from_new_structure peru_pres_2026 (columns :: [r1] ++ r2 :: [r3])
  = generate_from_new_structure peru_pres_2026 (columns :: [r1] ++ [r3])
  /\ generate_from_new_structure peru_pres_2026 (twice :: [] ++ r4 :: [])
     = Raise AmbiguousTruth
  /\ (exists doc,
         generate_from_new_structure peru_pres_2026 (twice :: [] ++ []) = Ok doc).
Proof.
  intros columns twice r1 r2 r3 r4. split; [|split].
  - apply (X11_row_without_statement peru_pres_2026 columns [r1] [r3] r2).
    + simpl. lia.
    + vm_compute. reflexivity.
    + right. vm_compute. lia.
  - apply (X11_row_without_statement peru_pres_2026 twice [] [] r4).
    + simpl. lia.
    + vm_compute. reflexivity.
    + discriminate.
    + vm_compute. lia.
  - eexists. vm_compute. reflexivity.
Defined.

(** X12. A sheet with both mandatory columns in which the Statement cell
    of every data row cleans to [None], a sheet with the header row
    alone among them.  When it has no data row, or ["Tema"] stands on
    one column only, or the script is the Chilean party script, the run
    does not raise: the document has an entry for every other header,
    each with no votes at all.  In the other three scripts, with a data
    row and ["Tema"] on two columns, the run raises. *)
Theorem X12_no_statement_no_votes (v : variant) (t : table)
        (columns : list scalar) (data_frame : list row) :
  head v t = columns :: data_frame ->
  has_column columns Statement = true ->
  has_column columns Tema = true ->
  (forall r, In r data_frame ->
             clean_text v (at_ columns r Statement) = Ok None) ->
  (v = chile_partidos_2025
   \/ (count_occ scalar_eq_dec columns Tema <= 1)%nat
   \/ data_frame = [] ->
   exists doc,
     generate_from_new_structure v t = Ok doc
     /\ (forall h, In h columns -> h <> Tema -> h <> Statement ->
                   In h (keys (entities doc)))
     /\ (forall h e, In (h, e) (entities doc) -> entry_votes e = []))
  /\ (v <> chile_partidos_2025 ->
      (2 <= count_occ scalar_eq_dec columns Tema)%nat ->
      data_frame <> [] ->
      generate_from_new_structure v t = Raise AmbiguousTruth).
Proof.
  intros Hhead Hs Ht Hstatements. split.
  - intros Hcase.
    assert (Hrows : forall r, In r data_frame ->
                              row_question (clean_text v) columns r = Ok None).
    { intros r Hr. apply row_question_None; [|now apply Hstatements].
      destruct Hcase as [Hc|[Hc|Hc]].
      - apply topic_cleans. now left.
      - apply topic_cleans. now right.
      - subst data_frame. destruct Hr. }
    assert (Hrun : exists doc, generate_from_new_structure v t = Ok doc).
    { rewrite generate_reshape. unfold reshape. rewrite Hhead, Hs, Ht. cbn.
      rewrite each_row_no_statement by exact Hrows. cbn. eauto. }
    destruct Hrun as [doc Hrun]. exists doc. split; [exact Hrun|].
    rewrite generate_reshape in Hrun.
    destruct (reshape_spec _ _ _ _ _ _ _ _ Hrun)
      as [columns' [data_frame' [headers [Hhead' [_ [_ [_ [Hin [_ [Hent _]]]]]]]]]].
    rewrite Hhead in Hhead'. injection Hhead' as <- <-.
    split.
    + intros h Hh H1 H2. rewrite Hent. unfold keys. rewrite map_map, map_id.
      apply Hin, filter_In. split; [exact Hh|].
      now apply is_entity_column_true.
    + intros h e He. rewrite Hent in He.
      apply in_map_iff in He as [c [Heq Hc]]. injection Heq as <- <-.
      cbn [entry_votes]. now apply votes_after_no_statement.
  - intros Hv Htwice Hne. rewrite generate_reshape. unfold reshape.
    rewrite Hhead, Hs, Ht. cbn [negb orb].
    destruct data_frame as [|r rows]; [congruence|].
    now rewrite (repeated_topic_raises v columns _ _ _ _ Hv Htwice).
Qed.

Lemma X12_no_statement_no_votes_witness :
  let columns := [SStr (u "Partido A"); Tema; Statement; SStr (u "Partido B")] in
  let twice := [Tema; Statement; Tema; SStr (u "Partido B")] in
  let r := [SStr (u "1"); SStr (u "Salud"); SNaN; SStr (u "0")] in
  let r' := [SStr (u "Salud"); SNaN; SStr (u "Salud"); SStr (u "0")] in
  (exists doc,
      generate_from_new_structure peru_partidos_2026 [columns; r] = Ok doc
      /\ (forall h, In h columns -> h <> Tema -> h <> Statement ->
                    In h (keys (entities doc)))
      /\ (forall h e, In (h, e) (entities doc) -> entry_votes e = []))
  /\ generate_from_new_structure peru_partidos_2026 [twice; r']
     = Raise AmbiguousTruth.
Proof.
  intros columns twice r r'. split.
  - apply (X12_no_statement_no_votes peru_partidos_2026 [columns; r]
             columns [r]).
    + reflexivity.
    + reflexivity.
    + reflexivity.
    + intros x [<-|[]]. vm_compute. reflexivity.
    + right. left. vm_compute. lia.
  - apply (X12_no_statement_no_votes peru_partidos_2026 [twice; r'] twice [r']).
    + reflexivity.
    + reflexivity.
    + reflexivity.
    + intros x [<-|[]]. vm_compute. reflexivity.
    + discriminate.
    + vm_compute. lia.
    + discriminate.
Defined.
